(** * Credit-agreement assembly pipeline: a shallow embedding and its properties

    The development embeds [package/lambda_function.py] (the revision the
    specification describes: memo-text column, template names, workflow
    status fields) and, where the two revisions differ on a property, the
    older [lambda_function.py] in the module [Legacy].

    Layout:
    - [Py]        the Python values and built-ins the program relies on
                  (exceptions, binary64 floats, [float()], [str()], format
                  specifications, [str.strip], ordered dictionaries);
    - [Pandas]    DataFrame cells, [notnull], [drop], left [merge];
    - the program  formatting helpers, Textract field extraction, Bedrock
                  request, template mappings, the main loop;
    - [Legacy]    the older revision of the helpers and of the narrative step;
    - the properties. *)

From Stdlib Require Import ZArith Bool Ascii String List Lia.
From Stdlib Require Import Floats.SpecFloat DecimalString.
From Stdlib Require Import DecimalN DecimalPos.
From stdpp Require Import base option list strings gmap fin_maps.

Local Open Scope string_scope.
Local Open Scope Z_scope.
Local Open Scope list_scope.

(* ===================================================================== *)
(** * Python values and built-ins *)
(* ===================================================================== *)

Module Py.

(** The exceptions that can travel through the program. [ClientError]
    stands for whatever a boto3 call raises (network, throttling, access);
    [TemplateError] for what jinja2 raises. All are subclasses of
    [Exception]. *)
Inductive exn : Type :=
| KeyError (k : string)
| IndexError
| ValueError
| TypeError
| ClientError (msg : string)
| TemplateError (msg : string).

(** A computation that returns or raises. *)
Inductive result (A : Type) : Type :=
| Ok (a : A)
| Raise (e : exn).
Arguments Ok {A} a.
Arguments Raise {A} e.

#[export] Instance result_ret : MRet result := fun _ a => Ok a.
#[export] Instance result_bind : MBind result := fun _ _ f m =>
  match m with Ok a => f a | Raise e => Raise e end.
#[export] Instance result_fmap : FMap result := fun _ _ f m =>
  match m with Ok a => Ok (f a) | Raise e => Raise e end.

Definition is_ok {A} (r : result A) : bool :=
  match r with Ok _ => true | Raise _ => false end.

(** [try: body except (ValueError, TypeError): handler] *)
Definition try_except_value_type {A} (body : result A) (handler : result A) : result A :=
  match body with
  | Raise ValueError | Raise TypeError => handler
  | r => r
  end.

(** [try: body except Exception ...: handler] *)
Definition try_except_exception {A} (body : result A) (handler : exn -> result A) : result A :=
  match body with
  | Raise e => handler e
  | r => r
  end.

(** ** Binary64 floats

    A Python [float] is an IEEE 754 binary64 number, modelled by
    [spec_float] with precision 53 and maximal exponent 1024. *)

Definition prec : Z := 53.
Definition emax : Z := 1024.

Definition float := spec_float.

Definition b64_of_Z (z : Z) : float := binary_normalize prec emax z 0 false.

(** Nearest binary64 (ties to even) of [(-1)^neg * p / q]. *)
Definition b64_of_quot (neg : bool) (p q : positive) : float :=
  let '(mz, ez, lz) := SFdiv_core_binary prec emax (Zpos p) 0 (Zpos q) 0 in
  binary_round_aux prec emax neg mz ez lz.

(** Nearest binary64 of [(-1)^neg * m * 10^e10]. *)
Definition b64_of_decimal (neg : bool) (m : N) (e10 : Z) : float :=
  match m with
  | N0 => S754_zero neg
  | Npos p =>
      match e10 with
      | Zneg k => b64_of_quot neg p (Pos.pow 10 k)
      | Z0 => binary_round prec emax neg p 0
      | Zpos k => binary_round prec emax neg (p * Pos.pow 10 k) 0
      end
  end.

Definition b64_sub (x y : float) : float := SFsub prec emax x y.

Definition is_nan (x : float) : bool :=
  match x with S754_nan => true | _ => false end.


Definition float_eqb (x y : float) : bool :=
  match x, y with
  | S754_zero a, S754_zero b => Bool.eqb a b
  | S754_infinity a, S754_infinity b => Bool.eqb a b
  | S754_nan, S754_nan => true
  | S754_finite a m e, S754_finite b m' e' => Bool.eqb a b && Pos.eqb m m' && Z.eqb e e'
  | _, _ => false
  end.

(** ** Characters and [str.strip]

    A [string] is a sequence of code points below 256. [str.isspace] holds
    on these for TAB..CR, FS..US, SPACE, NEL and NBSP. *)

Definition is_space (c : ascii) : bool :=
  let n := N_of_ascii c in
  ((9 <=? n) && (n <=? 13) || (28 <=? n) && (n <=? 32) || (n =? 133) || (n =? 160))%N.

Definition is_digit (c : ascii) : bool :=
  let n := N_of_ascii c in ((48 <=? n) && (n <=? 57))%N.

Definition digit_val (c : ascii) : N := (N_of_ascii c - 48)%N.

Definition lower (c : ascii) : ascii :=
  let n := N_of_ascii c in
  if ((65 <=? n) && (n <=? 90))%N then ascii_of_N (n + 32) else c.

(** The characters [float()] ignores around a numeral: the C locale's
    white space, and the non-ASCII spaces it first rewrites to [' ']. *)
Definition is_float_space (c : ascii) : bool :=
  let n := N_of_ascii c in
  ((9 <=? n) && (n <=? 13) || (n =? 32) || (n =? 133) || (n =? 160))%N.

Section Strip.
Variable sp : ascii -> bool.

Fixpoint lstrip_with (s : string) : string :=
  match s with
  | String c s' => if sp c then lstrip_with s' else s
  | EmptyString => EmptyString
  end.

Fixpoint rstrip_with (s : string) : string :=
  match s with
  | String c s' =>
      match rstrip_with s' with
      | EmptyString => if sp c then EmptyString else String c EmptyString
      | t => String c t
      end
  | EmptyString => EmptyString
  end.

Definition strip_with (s : string) : string := rstrip_with (lstrip_with s).
End Strip.

(** [s.strip()] *)
Definition strip (s : string) : string := strip_with is_space s.

(** [sep.join(parts)] *)
Fixpoint join (sep : string) (parts : list string) : string :=
  match parts with
  | [] => ""
  | [p] => p
  | p :: ps => p +:+ sep +:+ join sep ps
  end.

(** ** [float(str)]

    The numeral grammar of the language reference:
    [[sign] (digitpart ["." [digitpart]] | "." digitpart) [("e"|"E") [sign] digitpart]],
    [digitpart ::= digit (["_"] digit)*], or [[sign] ("inf" | "infinity" | "nan")]
    in any letter case; surrounding white space is ignored. *)

Fixpoint digit_tail (cs : list ascii) : list ascii * list ascii :=
  match cs with
  | c :: cs' =>
      if is_digit c then
        let '(ds, r) := digit_tail cs' in (c :: ds, r)
      else if Ascii.eqb c "_" then
        match cs' with
        | d :: cs'' =>
            if is_digit d then let '(ds, r) := digit_tail cs'' in (d :: ds, r)
            else ([], cs)
        | [] => ([], cs)
        end
      else ([], cs)
  | [] => ([], [])
  end.

(** An optional digitpart: the digits read (none if [cs] does not start
    with a digit) and what follows. *)
Definition digitpart (cs : list ascii) : list ascii * list ascii :=
  match cs with
  | c :: cs' =>
      if is_digit c then let '(ds, r) := digit_tail cs' in (c :: ds, r)
      else ([], cs)
  | [] => ([], [])
  end.

Definition digits_val (ds : list ascii) : N :=
  fold_left (fun acc d => (10 * acc + digit_val d)%N) ds 0%N.

Definition take_sign (cs : list ascii) : bool * list ascii :=
  match cs with
  | "-"%char :: r => (true, r)
  | "+"%char :: r => (false, r)
  | _ => (false, cs)
  end.

(** [("e"|"E") [sign] digitpart] or nothing; [None] when an exponent
    marker is not followed by digits. *)
Definition exponent_part (cs : list ascii) : option (Z * list ascii) :=
  match cs with
  | c :: r =>
      if Ascii.eqb (lower c) "e" then
        let '(neg, r1) := take_sign r in
        match digitpart r1 with
        | ([], _) => None
        | (ds, r2) =>
            let e := Z.of_N (digits_val ds) in
            Some (if neg then - e else e, r2)
        end
      else Some (0, cs)
  | [] => Some (0, [])
  end.

(** The mantissa digits and decimal exponent of an unsigned numeral. *)
Definition parse_number (cs : list ascii) : option (N * Z) :=
  let '(ids, r1) := digitpart cs in
  let '(fds, r2) :=
    match r1 with
    | "."%char :: r => digitpart r
    | _ => ([], r1)
    end in
  match ids, fds with
  | [], [] => None
  | _, _ =>
      match exponent_part r2 with
      | Some (e, []) =>
          Some (digits_val (ids ++ fds), e - Z.of_nat (List.length fds))
      | _ => None
      end
  end.

Definition parse_float (s : string) : option float :=
  let cs := list_ascii_of_string (strip_with is_float_space s) in
  let '(neg, r) := take_sign cs in
  let word := string_of_list_ascii (map lower r) in
  if String.eqb word "inf" || String.eqb word "infinity" then Some (S754_infinity neg)
  else if String.eqb word "nan" then Some S754_nan
  else
    match parse_number r with
    | Some (m, e) => Some (b64_of_decimal neg m e)
    | None => None
    end.

(** ** Decimal rendering *)

Definition str_of_N (n : N) : string := NilZero.string_of_uint (N.to_uint n).

Definition str_of_Z (z : Z) : string :=
  match z with
  | Zneg p => "-" +:+ str_of_N (Npos p)
  | _ => str_of_N (Z.to_N z)
  end.

(** [num / den] rounded to the nearest integer, ties to even
    ([0 <= num], [0 < den]). *)
Definition round_half_even_div (num den : Z) : Z :=
  let q := num / den in
  let r := num mod den in
  match 2 * r ?= den with
  | Lt => q
  | Gt => q + 1
  | Eq => if Z.even q then q else q + 1
  end.

(** [m * 2^e * 10^k] rounded to the nearest integer, ties to even. *)
Definition scaled_round (m : positive) (e : Z) (k : Z) : Z :=
  match e with
  | Zneg p => round_half_even_div (Zpos m * 10 ^ k) (2 ^ Zpos p)
  | _ => Zpos m * 2 ^ e * 10 ^ k
  end.

Fixpoint group3_rev (ds : list ascii) (k : nat) : list ascii :=
  match ds with
  | [] => []
  | d :: ds' =>
      match k with
      | 3%nat => ","%char :: d :: group3_rev ds' 1
      | _ => d :: group3_rev ds' (S k)
      end
  end.

(** The [,] option: a comma between each group of three integer digits. *)
Definition group3 (digits : string) : string :=
  string_of_list_ascii (rev (group3_rev (rev (list_ascii_of_string digits)) 0)).

Definition two_digits (n : Z) : string :=
  if n <? 10 then "0" +:+ str_of_Z n else str_of_Z n.

(** [format(x, ".2f")] and, with [grouping], [format(x, ",.2f")]: the exact
    binary value correctly rounded to two decimals. *)
Definition format_f2 (grouping : bool) (x : float) : string :=
  let sign (s : bool) := if s then "-" else "" in
  let body (n : Z) :=
    let ip := str_of_Z (n / 100) in
    (if grouping then group3 ip else ip) +:+ "." +:+ two_digits (n mod 100) in
  match x with
  | S754_nan => "nan"
  | S754_infinity s => sign s +:+ "inf"
  | S754_zero s => sign s +:+ body 0
  | S754_finite s m e => sign s +:+ body (scaled_round m e 2)
  end.

(** ** [repr(float)]

    The shortest decimal numeral that converts back to the same float, the
    closest to its exact value among those of that length; printed in
    positional notation when the decimal point falls within the digits
    or at most four places to their left and sixteen to their right. *)

(** The positive float [m * 2^e] as a fraction. *)
Definition frac_of (m : positive) (e : Z) : Z * Z :=
  match e with
  | Zneg p => (Zpos m, 2 ^ Zpos p)
  | _ => (Zpos m * 2 ^ e, 1)
  end.

(** [num/den * 10^k] as a fraction. *)
Definition scale10 (nd : Z * Z) (k : Z) : Z * Z :=
  let '(num, den) := nd in
  match k with
  | Zneg p => (num, den * 10 ^ Zpos p)
  | _ => (num * 10 ^ k, den)
  end.

(** The least [k] with [num/den < 10^k], searched downwards from [k0]
    ([num/den < 10^k0]) over [fuel] steps. *)
Fixpoint decpt_from (fuel : nat) (nd : Z * Z) (k0 : Z) : Z :=
  match fuel with
  | O => k0
  | S fuel' =>
      let '(num, den) := scale10 nd (- (k0 - 1)) in
      if num <? den then decpt_from fuel' nd (k0 - 1) else k0
  end.

(** The search starts from an upper estimate taken from the bit lengths:
    [num/den < 2^(bits num - bits den + 1)] and [log10 2 < 0.30103]. *)
Definition decpt (m : positive) (e : Z) : Z :=
  let '(num, den) := frac_of m e in
  let t := Z.log2 num - Z.log2 den + 1 in
  decpt_from 8 (num, den) (t * 30103 / 100000 + 2).

(** The candidate with [n] digits, when one converts back to [x]. *)
Definition repr_candidate (x : float) (nd : Z * Z) (k : Z) (n : Z) : option N :=
  let '(num, den) := scale10 nd (n - k) in
  let lo := Z.to_N (num / den) in
  let r := num mod den in
  let back (d : N) := float_eqb (b64_of_decimal false d (k - n)) x in
  if r =? 0 then (if back lo then Some lo else None)
  else
    let hi := (lo + 1)%N in
    match back lo, back hi with
    | true, true =>
        match 2 * r ?= den with
        | Lt => Some lo
        | Gt => Some hi
        | Eq => if N.even lo then Some lo else Some hi
        end
    | true, false => Some lo
    | false, true => Some hi
    | false, false => None
    end.

Fixpoint shortest_from (fuel : nat) (x : float) (nd : Z * Z) (k : Z) (n : Z) : N * Z :=
  match fuel with
  | O => (Z.to_N (round_half_even_div (fst (scale10 nd (n - k))) (snd (scale10 nd (n - k)))), n)
  | S fuel' =>
      match repr_candidate x nd k n with
      | Some d => (d, n)
      | None => shortest_from fuel' x nd k (n + 1)
      end
  end.

Fixpoint drop_zeros_rev (ds : list ascii) : list ascii :=
  match ds with
  | "0"%char :: ds' => drop_zeros_rev ds'
  | _ => ds
  end.

(** The digits of the shortest numeral of the positive float [m * 2^e],
    without trailing zeros, and the position of the decimal point
    relative to their start. *)
Definition shortest_digits (m : positive) (e : Z) : list ascii * Z :=
  let x := S754_finite false m e in
  let nd := frac_of m e in
  let k := decpt m e in
  let '(d, n) := shortest_from 16 x nd k 1 in
  let ds := list_ascii_of_string (str_of_N d) in
  (rev (drop_zeros_rev (rev ds)), k + (Z.of_nat (List.length ds) - n)).

Definition zeros (n : Z) : string := string_of_list_ascii (repeat "0"%char (Z.to_nat n)).

Definition repr_digits (ds : list ascii) (k : Z) : string :=
  let len := Z.of_nat (List.length ds) in
  if (-4 <? k) && (k <=? 16) then
    if k <=? 0 then "0." +:+ zeros (- k) +:+ string_of_list_ascii ds
    else if len <=? k then string_of_list_ascii ds +:+ zeros (k - len) +:+ ".0"
    else string_of_list_ascii (take (Z.to_nat k) ds) +:+ "." +:+
         string_of_list_ascii (drop (Z.to_nat k) ds)
  else
    let mant :=
      match ds with
      | [] => ""
      | [d] => String d ""
      | d :: rest => String d ("." +:+ string_of_list_ascii rest)
      end in
    let ex := k - 1 in
    mant +:+ "e" +:+ (if ex <? 0 then "-" else "+") +:+ two_digits (Z.abs ex).

Definition float_repr (x : float) : string :=
  match x with
  | S754_nan => "nan"
  | S754_infinity s => if s then "-inf" else "inf"
  | S754_zero s => if s then "-0.0" else "0.0"
  | S754_finite s m e =>
      let '(ds, k) := shortest_digits m e in
      (if s then "-" else "") +:+ repr_digits ds k
  end.

(** ** Scalar values

    What a DataFrame cell read from CSV, a computed field or a formatted
    field can hold: [None], a [bool], a 64-bit integer, a [float]
    (with [nan] for a missing entry) or a [str]. *)

Inductive value : Type :=
| VNone
| VBool (b : bool)
| VInt (z : Z)
| VFloat (x : float)
| VStr (s : string).

#[export] Instance float_eq_dec : EqDecision spec_float.
Proof. solve_decision. Defined.
#[export] Instance value_eq_dec : EqDecision value.
Proof. solve_decision. Defined.
#[export] Instance exn_eq_dec : EqDecision exn.
Proof. solve_decision. Defined.
#[export] Instance result_eq_dec {A} `{EqDecision A} : EqDecision (result A).
Proof. solve_decision. Defined.

(** [float(v)]. Integers here are 64-bit, so the conversion cannot
    overflow. *)
Definition py_float (v : value) : result float :=
  match v with
  | VNone => Raise TypeError
  | VBool b => Ok (b64_of_Z (if b then 1 else 0))
  | VInt z => Ok (b64_of_Z z)
  | VFloat x => Ok x
  | VStr s =>
      match parse_float s with
      | Some x => Ok x
      | None => Raise ValueError
      end
  end.

(** [str(v)], which is what a replacement field without format
    specification inserts. *)
Definition py_str (v : value) : string :=
  match v with
  | VNone => "None"
  | VBool b => if b then "True" else "False"
  | VInt z => str_of_Z z
  | VFloat x => float_repr x
  | VStr s => s
  end.

(** Truth value in a condition. *)
Definition truthy (v : value) : bool :=
  match v with
  | VNone => false
  | VBool b => b
  | VInt z => negb (z =? 0)
  | VFloat (S754_zero _) => false
  | VFloat _ => true
  | VStr s => negb (String.eqb s "")
  end.

(** ** Dictionaries that are iterated

    A [dict] keeps its keys in insertion order; assigning to a key that is
    present replaces the value where the key stands. *)

Definition odict (V : Type) : Type := list (string * V).

Fixpoint od_set {V} (k : string) (v : V) (d : odict V) : odict V :=
  match d with
  | [] => [(k, v)]
  | (k', v') :: d' =>
      if String.eqb k' k then (k, v) :: d' else (k', v') :: od_set k v d'
  end.

Fixpoint od_get {V} (k : string) (d : odict V) : option V :=
  match d with
  | [] => None
  | (k', v') :: d' => if String.eqb k' k then Some v' else od_get k d'
  end.

Definition od_keys {V} (d : odict V) : list string := map fst d.

End Py.

(* ===================================================================== *)
(** * pandas: cells, frames, [drop] and the left [merge] *)
(* ===================================================================== *)

Module Pandas.
Import Py.

(** The missing-value marker of a frame. *)
Definition nan : value := VFloat S754_nan.

(** [pd.notnull(v)] on a scalar. *)
Definition notnull (v : value) : bool :=
  match v with
  | VNone => false
  | VFloat S754_nan => false
  | _ => true
  end.

(** A frame: its column labels and, per row, the cells in column order. *)
Record DataFrame : Type := { columns : list string; rows : list (list value) }.

(** Every row is as wide as the column list. *)
Definition frame_wf (df : DataFrame) : Prop :=
  Forall (fun r => length r = length (columns df)) (rows df).

(** Position of the first column labelled [c]. *)
Fixpoint col_index (c : string) (cols : list string) : option nat :=
  match cols with
  | [] => None
  | c' :: cs => if String.eqb c' c then Some 0%nat else S <$> col_index c cs
  end.

(** The cells of column [c], one per row. *)
Definition column_values (c : string) (df : DataFrame) : list (option value) :=
  match col_index c (columns df) with
  | Some i => map (fun r => r !! i) (rows df)
  | None => []
  end.

Fixpoint select {A} (mask : list bool) (l : list A) : list A :=
  match mask, l with
  | b :: m, x :: l' => if b then x :: select m l' else select m l'
  | _, _ => []
  end.

(** [df.drop(columns=names, errors='ignore')] *)
Definition drop_columns (names : list string) (df : DataFrame) : DataFrame :=
  let mask := map (fun c => negb (bool_decide (c ∈ names))) (columns df) in
  {| columns := select mask (columns df); rows := map (select mask) (rows df) |}.

(** Equality of join keys: numbers by value, strings by content, and a
    missing key matches a missing key. *)
Definition key_eqb (a b : value) : bool :=
  match a, b with
  | VStr s, VStr t => String.eqb s t
  | VInt x, VInt y => x =? y
  | VBool x, VBool y => Bool.eqb x y
  | VFloat x, VFloat y => SFeqb x y
  | VInt z, VFloat y => SFeqb (b64_of_Z z) y
  | VFloat x, VInt z => SFeqb x (b64_of_Z z)
  | _, _ => false
  end.

Definition key_match (a b : option value) : bool :=
  match a, b with
  | Some a, Some b => (negb (notnull a) && negb (notnull b)) || key_eqb a b
  | _, _ => false
  end.

(** The rows of [rrows] whose key (at [j]) matches the key of [lr] (at [i]). *)
Definition matching (i j : nat) (rrows : list (list value)) (lr : list value) : list (list value) :=
  List.filter (fun rr => key_match (lr !! i) (rr !! j)) rrows.

(** The merged rows that one left row gives: one per matching right row
    (the right key cell left out), or one filled with [nan] when none
    matches. *)
Definition joined (i j width : nat) (rrows : list (list value)) (lr : list value) : list (list value) :=
  match matching i j rrows lr with
  | [] => [lr ++ replicate width nan]
  | ms => map (fun rr => lr ++ delete j rr) ms
  end.

(** A column label shared by both sides, other than the key, gets the
    side's suffix. *)
Definition suffixed (on : string) (lcols rcols : list string) (sfx : string) (c : string) : string :=
  if bool_decide (c ≠ on) && bool_decide (c ∈ lcols) && bool_decide (c ∈ rcols)
  then c +:+ sfx else c.

(** [l.merge(r, on=on, how="left")], for the frames pandas joins: key
    columns of one kind (it refuses a text key against a numeric one)
    and suffixes that give no label twice. The cells of [r] are copied
    as they are; pandas turns an integer column of [r] into floats when
    some row of [l] finds no match, which no statement below depends
    on. *)
Definition merge_left (l r : DataFrame) (on : string) : result DataFrame :=
  match col_index on (columns l), col_index on (columns r) with
  | Some i, Some j =>
      Ok {| columns :=
              map (suffixed on (columns l) (columns r) "_x") (columns l) ++
              map (suffixed on (columns l) (columns r) "_y") (delete j (columns r));
            rows :=
              flat_map (joined i j (length (columns r) - 1) (rows r)) (rows l) |}
  | _, _ => Raise (KeyError on)
  end.

(** A row as [iterrows] yields it: cells looked up by column label. *)
Definition iterrows (df : DataFrame) : list (gmap string value) :=
  map (fun r => list_to_map (zip (columns df) r)) (rows df).

(** [row.get(k, default)] *)
Definition get (row : gmap string value) (k : string) (dflt : value) : value :=
  default dflt (row !! k).

(** [row[k]] *)
Definition getitem (row : gmap string value) (k : string) : result value :=
  match row !! k with
  | Some v => Ok v
  | None => Raise (KeyError k)
  end.

End Pandas.

(* ===================================================================== *)
(** * The program ([package/lambda_function.py]) *)
(* ===================================================================== *)

Module Lambda.
Import Py Pandas.

Definition bucket_name : string := "cams-input-hackathon-bucket".

(** ** Formatting helpers *)

Definition format_currency (val : value) : result string :=
  try_except_value_type
    (if notnull val
     then x ← py_float val; Ok ("$" +:+ format_f2 true x)
     else Ok "N/A")
    (Ok "N/A").

Definition format_percentage (val : value) : result string :=
  try_except_value_type
    (if notnull val
     then x ← py_float val; Ok (format_f2 false x +:+ "%")
     else Ok "N/A")
    (Ok "N/A").

(** ** The document-analysis response

    A block of the response, with the optional members the code tests
    for ([EntityTypes], [Relationships], [Text]). *)

Record relationship : Type := { Type_ : string; Ids : list string }.

Record block : Type := {
  Id : string;
  BlockType : string;
  EntityTypes : option (list string);
  Relationships : option (list relationship);
  Text : option string
}.

Record analysis : Type := { Blocks : list block }.

(** [{block['Id']: block for block in response['Blocks']}] *)
Definition blocks_by_id (response : analysis) : gmap string block :=
  fold_left (fun m b => <[Id b := b]> m) (Blocks response) ∅.

(** [next((rel['Ids'][0] for rel in rels if rel['Type'] == 'VALUE'), None)] *)
Definition first_value_id (rels : list relationship) : result (option string) :=
  match List.find (fun rel => String.eqb (Type_ rel) "VALUE") rels with
  | None => Ok None
  | Some rel =>
      match Ids rel with
      | [] => Raise IndexError
      | i :: _ => Ok (Some i)
      end
  end.

(** [next((b['Text'] for b in response['Blocks'] if b['Id'] == cid and 'Text' in b), '')] *)
Definition child_text (response : analysis) (cid : string) : string :=
  match List.find (fun b => String.eqb (Id b) cid && bool_decide (is_Some (Text b)))
                  (Blocks response) with
  | Some b => default "" (Text b)
  | None => ""
  end.

(** The two nested loops that append the text of every id of every
    [CHILD] relationship to [acc]. *)
Definition append_children (response : analysis) (rels : list relationship) (acc : string) : string :=
  fold_left
    (fun acc rel =>
       if String.eqb (Type_ rel) "CHILD"
       then fold_left (fun acc cid => acc +:+ child_text response cid) (Ids rel) acc
       else acc)
    rels acc.

(** One iteration of the loop over the blocks. *)
Definition extract_step (response : analysis) (blocks : gmap string block)
    (fields : odict string) (b : block) : result (odict string) :=
  is_key ←
    (if String.eqb (BlockType b) "KEY_VALUE_SET"
     then match EntityTypes b with
          | Some ets => Ok (bool_decide ("KEY" ∈ ets))
          | None => Raise (KeyError "EntityTypes")
          end
     else Ok false);
  if is_key : bool then
    val_block_id ← first_value_id (default [] (Relationships b));
    let key_text :=
      match Relationships b with
      | Some ((_ :: _) as rels) => append_children response rels ""
      | _ => ""
      end in
    let val_text :=
      match val_block_id with
      | Some vid =>
          if negb (String.eqb vid "") then
            match blocks !! vid with
            | Some val_block =>
                match Relationships val_block with
                | Some ((_ :: _) as rels) => append_children response rels ""
                | _ => ""
                end
            | None => ""
            end
          else ""
      | None => ""
      end in
    Ok (od_set (strip key_text) (strip val_text) fields)
  else Ok fields.

Fixpoint extract_loop (response : analysis) (blocks : gmap string block)
    (fields : odict string) (bs : list block) : result (odict string) :=
  match bs with
  | [] => Ok fields
  | b :: bs' =>
      fields' ← extract_step response blocks fields b;
      extract_loop response blocks fields' bs'
  end.

(** The body of [extract_from_textract] after the service call. *)
Definition textract_fields (response : analysis) : result (odict string) :=
  extract_loop response (blocks_by_id response) [] (Blocks response).

(** ** External services and the state of a run *)

Record bedrock_request : Type := {
  user_content : string;
  max_tokens : Z;
  temperature : float;
  anthropic_version : string;
  modelId : string
}.

(** The decoded response body: the [content] member when present, and in
    it the [text] member of each item when present. *)
Record response_body : Type := { content : option (list (option string)) }.

Inductive event : Type :=
| AnalyzeDocument (bucket : string) (key : value)
| InvokeModel (request : bedrock_request).

(** What a run changes outside its results: the service calls made so
    far and the number of identifiers drawn. *)
Record world : Type := { trace : list event; drawn : nat }.

#[export] Instance relationship_eq_dec : EqDecision relationship.
Proof. solve_decision. Defined.
#[export] Instance block_eq_dec : EqDecision block.
Proof. solve_decision. Defined.
#[export] Instance analysis_eq_dec : EqDecision analysis.
Proof. solve_decision. Defined.
#[export] Instance bedrock_request_eq_dec : EqDecision bedrock_request.
Proof. solve_decision. Defined.
#[export] Instance event_eq_dec : EqDecision event.
Proof. solve_decision. Defined.
#[export] Instance world_eq_dec : EqDecision world.
Proof. solve_decision. Defined.

Definition M (A : Type) : Type := world -> result A * world.

#[export] Instance M_ret : MRet M := fun _ a w => (Ok a, w).
#[export] Instance M_bind : MBind M := fun _ _ f m w =>
  match m w with
  | (Ok a, w') => f a w'
  | (Raise e, w') => (Raise e, w')
  end.

Definition lift {A} (r : result A) : M A := fun w => (r, w).

(** [try: body except Exception: handler] around stateful code. *)
Definition try_except {A} (body : M A) (handler : exn -> M A) : M A := fun w =>
  match body w with
  | (Raise e, w') => handler e w'
  | r => r
  end.

Record template_json : Type := {
  template_id : string;
  template_name : option string;
  template_content : string
}.

Record template_info : Type := { template : string; name : string }.

(** A mapping rule: a column to copy, or a function of the row. *)
Inductive source : Type :=
| Column (c : string)
| Computed (f : gmap string value -> result value).

Record agreement : Type := {
  agreement_id : string;
  cam_id : value;
  application_id : value;
  client_id : value;
  client_name : value;
  out_template_id : value;
  out_template_name : string;
  loan_type : value;
  loan_amount : value;
  populated_agreement_content : string;
  generation_date : string;
  status : string;
  review_required : string;
  compliance_check : string
}.

#[export] Instance agreement_eq_dec : EqDecision agreement.
Proof. solve_decision. Defined.

(** ** Template field mappings *)

Definition borrower_address (r : gmap string value) : result value :=
  a ← getitem r "address_line1";
  c ← getitem r "city";
  s ← getitem r "state";
  z ← getitem r "zip_code";
  Ok (VStr (py_str a +:+ ", " +:+ py_str c +:+ ", " +:+ py_str s +:+ " " +:+ py_str z)).

Definition down_payment (r : gmap string value) : result value :=
  pv ← getitem r "property_value";
  both ← (if notnull pv
          then ra ← getitem r "requested_amount"; Ok (notnull ra)
          else Ok false);
  if both : bool then
    pv ← getitem r "property_value";
    x ← py_float pv;
    ra ← getitem r "requested_amount";
    y ← py_float ra;
    Ok (VFloat (b64_sub x y))
  else Ok (VStr "N/A").

Definition TEMPLATE_001 : list (string * source) :=
  [ ("borrower_name", Column "full_name");
    ("loan_amount", Column "requested_amount");
    ("interest_rate", Column "recommended_rate");
    ("loan_term", Column "term_years");
    ("monthly_payment", Column "estimated_monthly_payment");
    ("annual_income", Column "annual_income");
    ("credit_score", Column "credit_score");
    ("ltv_ratio", Column "ltv_ratio");
    ("employment_status", Column "employment_status");
    ("borrower_address", Computed borrower_address);
    ("property_address", Column "property_address");
    ("property_value", Column "property_value");
    ("down_payment", Computed down_payment) ].

Definition TEMPLATE_002 : list (string * source) :=
  [ ("borrower_name", Column "full_name");
    ("loan_amount", Column "approved_amount");
    ("interest_rate", Column "final_rate");
    ("loan_term", Column "term_months");
    ("monthly_payment", Column "monthly_installment");
    ("annual_income", Column "annual_income");
    ("credit_score", Column "credit_score");
    ("loan_purpose", Column "loan_purpose") ].

Definition TEMPLATE_003 : list (string * source) :=
  [ ("borrower_name", Column "full_name");
    ("loan_amount", Column "requested_amount");
    ("interest_rate", Column "interest_percent");
    ("loan_term", Column "loan_duration_years");
    ("monthly_payment", Column "monthly_repayment");
    ("collateral_details", Column "collateral_details") ].

Definition template_mappings : gmap string (list (string * source)) :=
  <["TEMPLATE-003" := TEMPLATE_003]>
    (<["TEMPLATE-002" := TEMPLATE_002]>
      (<["TEMPLATE-001" := TEMPLATE_001]> ∅)).

(** [d.get(k)] for a dictionary with string keys and an arbitrary scalar
    [k]: only a string can be equal to a key. *)
Definition get_by_value {A} (d : gmap string A) (k : value) : option A :=
  match k with
  | VStr s => d !! s
  | _ => None
  end.

(** [src(row) if callable(src) else row.get(src, "N/A")] *)
Definition eval_source (src : source) (row : gmap string value) : result value :=
  match src with
  | Computed f => f row
  | Column c => Ok (get row c (VStr "N/A"))
  end.

(** [{field: ... for field, src in mapping.items()}] *)
Fixpoint resolve_from (context : gmap string value) (mapping : list (string * source))
    (row : gmap string value) : result (gmap string value) :=
  match mapping with
  | [] => Ok context
  | (field, src) :: rest =>
      v ← eval_source src row;
      resolve_from (<[field := v]> context) rest row
  end.

Definition resolve (mapping : list (string * source)) (row : gmap string value)
  : result (gmap string value) :=
  resolve_from ∅ mapping row.

(** [for f in fields: if f in context: context[f] = fmt(context[f])] *)
Fixpoint apply_format (fmt : value -> result string) (fields : list string)
    (context : gmap string value) : result (gmap string value) :=
  match fields with
  | [] => Ok context
  | f :: rest =>
      match context !! f with
      | Some v =>
          s ← fmt v;
          apply_format fmt rest (<[f := VStr s]> context)
      | None => apply_format fmt rest context
      end
  end.

Definition currency_fields : list string :=
  ["loan_amount"; "monthly_payment"; "property_value"; "down_payment"].

Definition percentage_fields : list string := ["interest_rate"; "ltv_ratio"].

(** The mapped and formatted fields of a row, before the defaults. *)
Definition resolved_fields (tid : value) (row : gmap string value)
  : result (gmap string value) :=
  let mapping := default [] (get_by_value template_mappings tid) in
  context ← resolve mapping row;
  context ← apply_format format_currency currency_fields context;
  apply_format format_percentage percentage_fields context.

(** [d.update(other)]: the entries of [other] replace those of [d]. *)
Definition update {V} (d other : gmap string V) : gmap string V := other ∪ d.

Definition fallback : string := "Approval conditions not available.".

Definition newline : string := String (ascii_of_nat 10) "".

(** ["\n".join([f"{k}: {v}" for k, v in textract_fields.items()])] *)
Definition serialize_fields (fields : odict string) : string :=
  join newline (map (fun kv => fst kv +:+ ": " +:+ snd kv) fields).

(** [{t["template_id"]: {...} for t in templates}] *)
Definition load_templates (templates : list template_json) : gmap string template_info :=
  fold_left
    (fun m t => <[template_id t :=
                   {| template := template_content t; name := default "" (template_name t) |}]> m)
    templates ∅.

(** ** The run, over the external services *)

Section Run.

(** The document-analysis and text-generation services, each answering
    a request given the calls made before it; template rendering; the
    identifier generator; today's date as [%Y-%m-%d]. *)
Variable analyze_document : list event -> string -> value -> result analysis.
Variable invoke_model : list event -> bedrock_request -> result response_body.
Variable render : string -> gmap string value -> result string.
Variable uuid4 : nat -> string.
Variable today : string.

Definition extract_from_textract (s3_bucket : string) (s3_key : value) : M (odict string) :=
  fun w =>
    let w' := {| trace := trace w ++ [AnalyzeDocument s3_bucket s3_key]; drawn := drawn w |} in
    match analyze_document (trace w) s3_bucket s3_key with
    | Ok response => (textract_fields response, w')
    | Raise e => (Raise e, w')
    end.

Definition approval_request (cam_text : value) : bedrock_request :=
  {| user_content :=
       "Review the following CAM and generate approval conditions for a loan:"
         +:+ newline +:+ newline +:+ py_str cam_text +:+ newline +:+ newline
         +:+ "Approval Conditions:";
     max_tokens := 300;
     temperature := b64_of_decimal false 5 (-1);
     anthropic_version := "bedrock-2023-05-31";
     modelId := "anthropic.claude-3-7-sonnet-20250219-v1:0" |}.

Definition generate_approval_conditions (cam_text : value) : M string :=
  fun w =>
    let request := approval_request cam_text in
    let w' := {| trace := trace w ++ [InvokeModel request]; drawn := drawn w |} in
    match invoke_model (trace w) request with
    | Raise e => (Raise e, w')
    | Ok body =>
        match content body with
        | Some [] => (Raise IndexError, w')
        | Some (None :: _) => (Raise (KeyError "text"), w')
        | Some (Some t :: _) => (Ok (strip t), w')
        | None => (Ok "N/A", w')
        end
    end.

Definition fresh_uuid : M string :=
  fun w => (Ok (uuid4 (drawn w)), {| trace := trace w; drawn := S (drawn w) |}).

Definition defaults : gmap string value :=
  list_to_map
    [ ("agreement_date", VStr today);
      ("lender_name", VStr "Citi Private Bank");
      ("payment_day", VStr "1st");
      ("grace_period", VStr "15");
      ("state_jurisdiction", VStr "New York") ].

(** [row["template_id"] if pd.notnull(row.get("template_id")) else "TEMPLATE-001"] *)
Definition resolve_template_id (row : gmap string value) : result value :=
  if notnull (get row "template_id" VNone)
  then getitem row "template_id"
  else Ok (VStr "TEMPLATE-001").

(** The field context of a row before the narrative is added. *)
Definition build_context (tid : value) (row : gmap string value)
  : result (gmap string value) :=
  context ← resolved_fields tid row;
  Ok (update context defaults).

(** The text the narrative is generated from: the memo text of the
    row, or the serialized fields of its scanned memo, or [None]. *)
Definition select_cam_text (row : gmap string value) : M value :=
  if notnull (get row "cam_content" VNone) then
    lift (getitem row "cam_content")
  else if notnull (get row "cam_s3_key" VNone) then
    try_except
      (key ← lift (getitem row "cam_s3_key");
       textract_fields ← extract_from_textract bucket_name key;
       mret (VStr (serialize_fields textract_fields)))
      (fun _ => mret VNone)
  else mret VNone.

Definition approval_conditions (row : gmap string value) : M string :=
  cam_text ← select_cam_text row;
  if truthy cam_text
  then generate_approval_conditions cam_text
  else mret fallback.

(** One iteration of the loop of [main]: [None] when the row is
    skipped by [continue]. *)
Definition process_row (template_map : gmap string template_info)
    (row : gmap string value) : M (option agreement) :=
  tid ← lift (resolve_template_id row);
  match get_by_value template_map tid with
  | None => mret None
  | Some info =>
      context ← lift (build_context tid row);
      conditions ← approval_conditions row;
      let context := <["approval_conditions" := VStr conditions]> context in
      agreement_text ← lift (render (template info) context);
      _ ← lift (getitem row "application_id");
      uuid ← fresh_uuid;
      app ← lift (getitem row "application_id");
      cli ← lift (getitem row "client_id");
      mret (Some
        {| agreement_id := uuid;
           cam_id := get row "cam_id" (VStr "N/A");
           application_id := app;
           client_id := cli;
           client_name := get row "full_name" (VStr "N/A");
           out_template_id := tid;
           out_template_name := name info;
           loan_type := get row "loan_type" (VStr "N/A");
           loan_amount := get context "loan_amount" (VStr "N/A");
           populated_agreement_content := agreement_text;
           generation_date := today;
           status := "Generated";
           review_required := "Yes";
           compliance_check := "Pending" |})
  end.

(** [for _, row in df.iterrows(): ...] appending to [output_rows]. *)
Fixpoint main_loop (template_map : gmap string template_info)
    (rows : list (gmap string value)) (output_rows : list agreement)
  : M (list agreement) :=
  match rows with
  | [] => mret output_rows
  | row :: rest =>
      r ← process_row template_map row;
      main_loop template_map rest
        (match r with Some a => output_rows ++ [a] | None => output_rows end)
  end.

Definition DUPLICATE_KEYS : list string := ["client_id"; "requested_amount"].

(** The chain of left joins rooted at the loan applications. *)
Definition merge_frames (clients loan_applications borrowing_requests
    underwriting_decisions credit_approval_memos term_sheets : DataFrame)
  : result DataFrame :=
  df ← merge_left loan_applications clients "client_id";
  df ← merge_left df (drop_columns DUPLICATE_KEYS borrowing_requests) "application_id";
  df ← merge_left df (drop_columns DUPLICATE_KEYS underwriting_decisions) "application_id";
  df ← merge_left df (drop_columns DUPLICATE_KEYS credit_approval_memos) "application_id";
  merge_left df (drop_columns DUPLICATE_KEYS term_sheets) "application_id".

(** [main], from the loaded frames and template list to the output
    rows. *)
Definition main (clients loan_applications borrowing_requests
    underwriting_decisions credit_approval_memos term_sheets : DataFrame)
    (templates : list template_json) : M (list agreement) :=
  df ← lift (merge_frames clients loan_applications borrowing_requests
               underwriting_decisions credit_approval_memos term_sheets);
  main_loop (load_templates templates) (iterrows df) [].

End Run.

Definition start : world := {| trace := []; drawn := 0 |}.

End Lambda.

(* ===================================================================== *)
(** * The older revision ([lambda_function.py]) *)
(* ===================================================================== *)

Module Legacy.
Import Py Pandas Lambda.

(** [format(val, spec)] with a fixed-point specification: a [str] or
    [None] rejects it, a number is formatted as its [float]. *)
Definition format_number (grouping : bool) (val : value) : result string :=
  match val with
  | VStr _ => Raise ValueError
  | VNone => Raise TypeError
  | _ => x ← py_float val; Ok (format_f2 grouping x)
  end.

Definition format_currency (val : value) : result string :=
  if notnull val
  then s ← format_number true val; Ok ("$" +:+ s)
  else Ok "N/A".

Definition format_percentage (val : value) : result string :=
  if notnull val
  then s ← format_number false val; Ok (s +:+ "%")
  else Ok "N/A".

Section Run.
Variable analyze_document : list Lambda.event -> string -> value -> result Lambda.analysis.
Variable invoke_model : list Lambda.event -> Lambda.bedrock_request -> result Lambda.response_body.

(** The narrative step: extraction and generation inside one [try],
    the sentinel in its handler. The two called functions read the
    same in both revisions. *)
Definition approval_conditions (row : gmap string value) : Lambda.M string :=
  Lambda.try_except
    (app ← Lambda.lift (getitem row "application_id");
     let cam_s3_key := VStr ("cams/" +:+ py_str app +:+ ".pdf") in
     textract_fields ← Lambda.extract_from_textract analyze_document Lambda.bucket_name cam_s3_key;
     let cam_text := VStr (Lambda.serialize_fields textract_fields) in
     Lambda.generate_approval_conditions invoke_model cam_text)
    (fun _ => mret Lambda.fallback).
End Run.

End Legacy.

(* ===================================================================== *)
(** * Properties *)
(* ===================================================================== *)

Import Py Pandas Lambda.

(** Closed goals are settled by evaluation: a decidable proposition
    through its decision procedure, an equation between small values
    directly. *)
Ltac decide_by_compute := apply (bool_decide_unpack _); vm_compute; exact I.
Ltac compute_refl := vm_compute; reflexivity.

Lemma bind_ok {A B} (m : result A) (f : A -> result B) (b : B) :
  m ≫= f = Ok b -> exists a, m = Ok a /\ f a = Ok b.
Proof. destruct m as [a | e]; [eauto | discriminate]. Qed.

(** ** Formatting utilities *)


Lemma format_currency_ok (v : value) : exists s, format_currency v = Ok s.
Proof.
  unfold format_currency. destruct (notnull v); [|eauto].
  destruct v as [| b | z | x | s]; simpl; eauto.
  destruct (parse_float s); simpl; eauto.
Qed.

Lemma format_percentage_ok (v : value) : exists s, format_percentage v = Ok s.
Proof.
  unfold format_percentage. destruct (notnull v); [|eauto].
  destruct v as [| b | z | x | s]; simpl; eauto.
  destruct (parse_float s); simpl; eauto.
Qed.


Lemma py_float_notnull_raises (v : value) (e : exn) :
  notnull v = true -> py_float v = Raise e -> e = ValueError /\ exists s, v = VStr s.
Proof.
  destruct v as [| b | z | x | s]; simpl; try discriminate.
  intros _. destruct (parse_float s); [discriminate|]. intros [= <-]. eauto.
Qed.

(** The older revision formats the value itself, without conversion and
    without a handler: text that is not a number makes it raise. *)
Example legacy_format_currency_raises :
  Legacy.format_currency (VStr "abc") = Raise ValueError.
Proof. reflexivity. Qed.

(** *** The text of an amount, as the specification describes it

    An optional minus sign, the integer digits, a point and two
    decimals; with grouping, a comma before every group of three
    integer digits. The reader below accepts exactly these texts and
    gives the sign and the number of hundredths they denote. It shares
    nothing with the formatter. *)

(** The number a non-empty sequence of decimal digits denotes. *)
Definition digits_value (cs : list ascii) : option N :=
  N.of_uint <$> NilZero.uint_of_string (string_of_list_ascii cs).

(** Read from the right, starting at position [p]: every fourth
    character is a comma and the others are digits. *)
Fixpoint grouped_from (p : nat) (r : list ascii) : bool :=
  match r with
  | [] => true
  | c :: r' =>
      (if (p mod 4 =? 3)%nat then Ascii.eqb c "," else is_digit c) && grouped_from (S p) r'
  end.

(** The last character read, which is the leftmost, is a digit. *)
Fixpoint leftmost_digit (r : list ascii) : bool :=
  match r with
  | [] => false
  | [c] => is_digit c
  | _ :: r' => leftmost_digit r'
  end.

(** The sign and the hundredths of an amount text; [None] for any other
    text. *)
Definition read_amount (grouping : bool) (s : string) : option (bool * N) :=
  let cs := list_ascii_of_string s in
  let '(neg, cs) :=
    match cs with
    | c :: t => if Ascii.eqb c "-" then (true, t) else (false, cs)
    | [] => (false, cs)
    end in
  match rev cs with
  | d2 :: d1 :: pt :: ip_rev =>
      if Ascii.eqb pt "." then
        ip ← (if grouping
              then if grouped_from 0 ip_rev && leftmost_digit ip_rev
                   then digits_value (rev (List.filter is_digit ip_rev))
                   else None
              else digits_value (rev ip_rev));
        fp ← digits_value [d1; d2];
        Some (neg, (100 * ip + fp)%N)
      else None
  | _ => None
  end.



Example read_amount_accepts :
  read_amount true "1,234.50" = Some (false, 123450%N) /\
  read_amount true "-0.50" = Some (true, 50%N) /\
  read_amount false "1234.50" = Some (false, 123450%N) /\
  read_amount true "1234.50" = None /\
  read_amount true "12,34.50" = None /\
  read_amount true ",234.50" = None /\
  read_amount true "1,234.5" = None /\
  read_amount true "1,234" = None /\
  read_amount false "1,234.50" = None /\
  read_amount true "inf" = None /\
  read_amount true "N/A" = None.
Proof. repeat split; vm_compute; reflexivity. Qed.

(** *** Digits *)







(** *** Groups of three *)










(** *** Two decimals *)




(** *** Reading back what the formatter writes *)










(** ** The mapping resolver, rule by rule *)

Section Resolver.
Context (row : gmap string value).



Lemma resolve_from_ok mapping ctx :
  Forall (fun fs => is_ok (eval_source fs.2 row) = true) mapping ->
  exists ctx', resolve_from ctx mapping row = Ok ctx'.
Proof.
  revert ctx. induction mapping as [| [g s] rest IH]; intros ctx H.
  - eauto.
  - apply Forall_cons in H as [Hs H]. simpl in *.
    destruct (eval_source s row); [|done]. simpl. eauto.
Qed.

Lemma resolve_from_dom mapping ctx ctx' :
  resolve_from ctx mapping row = Ok ctx' ->
  dom ctx' = dom ctx ∪ list_to_set mapping.*1.
Proof.
  revert ctx. induction mapping as [| [g s] rest IH]; intros ctx H.
  - injection H as <-. set_solver.
  - simpl in H. apply bind_ok in H as (v & _ & H).
    rewrite (IH _ H), dom_insert_L. set_solver.
Qed.
End Resolver.

Section Formatting.
Context (fmt : value -> result string).

Lemma apply_format_ok fields ctx :
  (forall v, exists s, fmt v = Ok s) ->
  exists ctx', apply_format fmt fields ctx = Ok ctx'.
Proof.
  intros Hfmt. revert ctx. induction fields as [| f rest IH]; intros ctx; simpl.
  - eauto.
  - destruct (ctx !! f) as [v |]; [|done].
    destruct (Hfmt v) as [s ->]. simpl. eauto.
Qed.

Lemma apply_format_other fields ctx ctx' f :
  apply_format fmt fields ctx = Ok ctx' ->
  f ∉ fields ->
  ctx' !! f = ctx !! f.
Proof.
  revert ctx. induction fields as [| g rest IH]; intros ctx H Hf.
  - by injection H as <-.
  - apply not_elem_of_cons in Hf as [Hne Hf]. simpl in H.
    destruct (ctx !! g) as [v |]; [|eauto].
    apply bind_ok in H as (s & _ & H).
    rewrite (IH _ H Hf). by rewrite lookup_insert_ne.
Qed.

Lemma apply_format_field fields ctx ctx' f v :
  apply_format fmt fields ctx = Ok ctx' ->
  NoDup fields ->
  f ∈ fields ->
  ctx !! f = Some v ->
  exists s, fmt v = Ok s /\ ctx' !! f = Some (VStr s).
Proof.
  revert ctx. induction fields as [| g rest IH]; intros ctx H Hnd Hin Hv.
  - by apply elem_of_nil in Hin.
  - apply NoDup_cons in Hnd as [Hg Hnd]. simpl in H.
    apply elem_of_cons in Hin as [-> | Hin].
    + rewrite Hv in H. apply bind_ok in H as (s & Hs & H).
      exists s. split; [done|].
      rewrite (apply_format_other _ _ _ _ H Hg). apply lookup_insert_eq.
    + destruct (decide (g = f)) as [-> | Hne]; [done|].
      destruct (ctx !! g) as [u |]; [|eauto].
      apply bind_ok in H as (s & _ & H).
      apply (IH _ H Hnd Hin). by rewrite lookup_insert_ne.
Qed.

Lemma apply_format_dom fields ctx ctx' :
  apply_format fmt fields ctx = Ok ctx' -> dom ctx' = dom ctx.
Proof.
  revert ctx. induction fields as [| g rest IH]; intros ctx H.
  - by injection H as <-.
  - simpl in H. destruct (ctx !! g) as [u |] eqn:Hu; [|eauto].
    apply bind_ok in H as (s & _ & H).
    rewrite (IH _ H), dom_insert_L.
    apply elem_of_dom_2 in Hu. set_solver.
Qed.
End Formatting.

Lemma NoDup_currency_fields : NoDup currency_fields.
Proof. decide_by_compute. Qed.
Lemma NoDup_percentage_fields : NoDup percentage_fields.
Proof. decide_by_compute. Qed.
Lemma NoDup_TEMPLATE_002 : NoDup TEMPLATE_002.*1.
Proof. decide_by_compute. Qed.
Lemma NoDup_TEMPLATE_003 : NoDup TEMPLATE_003.*1.
Proof. decide_by_compute. Qed.




Lemma defaults_keys (today : string) (f : string) :
  f ∉ ["agreement_date"; "lender_name"; "payment_day"; "grace_period"; "state_jurisdiction"] ->
  defaults today !! f = None.
Proof.
  intros Hf. unfold defaults. apply not_elem_of_list_to_map_1.
  simpl. exact Hf.
Qed.


Definition sample_row : gmap string value :=
  list_to_map
    [ ("application_id", VStr "APP-001"); ("client_id", VStr "CL-001");
      ("template_id", VStr "TEMPLATE-001");
      ("address_line1", VStr "12 Main St"); ("city", VStr "Albany");
      ("state", VStr "NY"); ("zip_code", VInt 12207);
      ("property_value", VInt 500000); ("requested_amount", VInt 400000) ].








(** ** Verbatim column rules *)

(** What a column rule puts in the context: the cell as it is when the
    row has the column, null or not, and ["N/A"] only when the row has no
    such column. *)
Lemma column_rule_value (row : gmap string value) (c : string) :
  eval_source (Column c) row =
    Ok (match row !! c with Some v => v | None => VStr "N/A" end).
Proof. unfold eval_source, get. by destruct (row !! c). Qed.

(** A loan application whose client is not in the client set. *)
Definition gap_applications : DataFrame :=
  {| columns := ["application_id"; "client_id"; "template_id";
                 "requested_amount"; "property_value"];
     rows := [[VStr "APP-001"; VStr "CL-404"; VStr "TEMPLATE-001";
               VInt 400000; VInt 500000]] |}.

Definition gap_clients : DataFrame :=
  {| columns := ["client_id"; "full_name"; "address_line1"; "city"; "state"; "zip_code"];
     rows := [[VStr "CL-001"; VStr "Ann Lee"; VStr "12 Main St"; VStr "Albany";
               VStr "NY"; VInt 12207]] |}.

Definition gap_row : gmap string value :=
  list_to_map
    [ ("application_id", VStr "APP-001"); ("client_id", VStr "CL-404");
      ("template_id", VStr "TEMPLATE-001");
      ("requested_amount", VInt 400000); ("property_value", VInt 500000);
      ("full_name", nan); ("address_line1", nan); ("city", nan);
      ("state", nan); ("zip_code", nan) ].

(** Claim C7, at the failing input. The left join keeps the application
    and fills the client's columns with [nan]; the column rule of
    [borrower_name] then copies that [nan] into the context, where the
    claim has ["N/A"]. *)
Theorem left_join_gap_is_copied_as_nan (today : string) :
  (iterrows <$> merge_left gap_applications gap_clients "client_id") = Ok [gap_row] /\
  (ctx ← build_context today (VStr "TEMPLATE-001") gap_row; Ok (ctx !! "borrower_name"))
    = Ok (Some nan) /\
  nan <> VStr "N/A".
Proof. split; [|split]; [decide_by_compute | compute_refl | discriminate]. Qed.

(** ** The composed address *)

Definition no_city_row : gmap string value :=
  list_to_map
    [ ("application_id", VStr "APP-002"); ("client_id", VStr "CL-002");
      ("template_id", VStr "TEMPLATE-001");
      ("address_line1", VStr "12 Main St"); ("city", nan);
      ("state", VStr "NY"); ("zip_code", VInt 12207);
      ("requested_amount", VInt 400000); ("property_value", VInt 500000) ].

(** Claim C8, at the failing input. With a null [city] the address is
    still composed, the null printed as ["nan"], where the claim has the
    sentinel; the sibling rule [down_payment] does test its inputs. *)
Theorem null_city_is_composed_into_address (today : string) :
  notnull (get no_city_row "city" VNone) = false /\
  borrower_address no_city_row = Ok (VStr "12 Main St, nan, NY 12207") /\
  (ctx ← build_context today (VStr "TEMPLATE-001") no_city_row;
   Ok (ctx !! "borrower_address")) = Ok (Some (VStr "12 Main St, nan, NY 12207")).
Proof. repeat split; compute_refl. Qed.

(** ** Run-wide defaults *)

Definition default_keys : list string :=
  ["agreement_date"; "lender_name"; "payment_day"; "grace_period"; "state_jurisdiction"].

Lemma defaults_dom (today : string) : dom (defaults today) = list_to_set default_keys.
Proof. unfold defaults. rewrite dom_list_to_map_L. reflexivity. Qed.

(** [update] by itself replaces: a key of both dictionaries takes the
    value of the second. *)
Lemma update_replaces {V} (d other : gmap string V) (k : string) (v : V) :
  other !! k = Some v -> update d other !! k = Some v.
Proof. intros H. unfold update. by apply lookup_union_Some_l. Qed.

Lemma update_keeps {V} (d other : gmap string V) (k : string) :
  other !! k = None -> update d other !! k = d !! k.
Proof. intros H. unfold update. by apply lookup_union_r. Qed.

Lemma template_mappings_cases (s : string) (m : list (string * source)) :
  template_mappings !! s = Some m ->
  m = TEMPLATE_001 \/ m = TEMPLATE_002 \/ m = TEMPLATE_003.
Proof.
  unfold template_mappings. intros H.
  apply lookup_insert_Some in H as [[_ <-] | [_ H]]; [auto|].
  apply lookup_insert_Some in H as [[_ <-] | [_ H]]; [auto|].
  apply lookup_insert_Some in H as [[_ <-] | [_ H]]; [auto|].
  by rewrite lookup_empty in H.
Qed.

(** No mapping declares a field that is also a default. *)
Lemma mapped_fields_not_defaults (tid : value) (f : string) :
  f ∈ (default [] (get_by_value template_mappings tid)).*1 ->
  f ∉ default_keys.
Proof.
  destruct tid as [| | | | s]; simpl; try (intros H; by apply elem_of_nil in H).
  destruct (template_mappings !! s) as [m |] eqn:Hm; simpl;
    [|intros H; by apply elem_of_nil in H].
  intros Hf Hd.
  assert (Forall (fun g => g ∉ default_keys) m.*1) as Hall.
  { destruct (template_mappings_cases s m Hm) as [-> | [-> | ->]];
      decide_by_compute. }
  rewrite Forall_forall in Hall. by apply (Hall f).
Qed.

Lemma resolved_fields_dom (tid : value) (row ctx : gmap string value) :
  resolved_fields tid row = Ok ctx ->
  dom ctx = list_to_set (default [] (get_by_value template_mappings tid)).*1.
Proof.
  unfold resolved_fields, resolve. intros H.
  apply bind_ok in H as (ctx1 & H1 & H). apply bind_ok in H as (ctx2 & H2 & H3).
  rewrite (apply_format_dom _ _ _ _ H3), (apply_format_dom _ _ _ _ H2),
    (resolve_from_dom _ _ _ _ H1), dom_empty_L.
  by rewrite (left_id_L ∅ (∪)).
Qed.

(** Claim C9. Whatever the row and its template, every field present
    after mapping and formatting has the same value once the defaults are
    laid over the context. *)
Theorem defaults_keep_resolved_fields (today : string) (tid : value)
    (row ctx : gmap string value) (f : string) (v : value) :
  resolved_fields tid row = Ok ctx ->
  ctx !! f = Some v ->
  build_context today tid row = Ok (update ctx (defaults today)) /\
  update ctx (defaults today) !! f = Some v.
Proof.
  intros Hctx Hf. split.
  - unfold build_context. by rewrite Hctx.
  - rewrite update_keeps; [done|].
    apply not_elem_of_dom. rewrite defaults_dom, elem_of_list_to_set.
    apply (mapped_fields_not_defaults tid).
    apply elem_of_dom_2 in Hf.
    by rewrite (resolved_fields_dom _ _ _ Hctx), elem_of_list_to_set in Hf.
Qed.

Definition sample_fields : gmap string value :=
  list_to_map
    [ ("borrower_name", VStr "N/A"); ("loan_amount", VStr "$400,000.00");
      ("interest_rate", VStr "N/A"); ("loan_term", VStr "N/A");
      ("monthly_payment", VStr "N/A"); ("annual_income", VStr "N/A");
      ("credit_score", VStr "N/A"); ("ltv_ratio", VStr "N/A");
      ("employment_status", VStr "N/A");
      ("borrower_address", VStr "12 Main St, Albany, NY 12207");
      ("property_address", VStr "N/A"); ("property_value", VStr "$500,000.00");
      ("down_payment", VStr "$100,000.00") ].

Lemma sample_fields_resolved :
  resolved_fields (VStr "TEMPLATE-001") sample_row = Ok sample_fields.
Proof. decide_by_compute. Qed.

Lemma defaults_keep_resolved_fields_sample :
  build_context "2025-06-01" (VStr "TEMPLATE-001") sample_row
    = Ok (update sample_fields (defaults "2025-06-01")) /\
  update sample_fields (defaults "2025-06-01") !! "loan_amount" = Some (VStr "$400,000.00").
Proof.
  apply (defaults_keep_resolved_fields "2025-06-01" (VStr "TEMPLATE-001")
           sample_row sample_fields "loan_amount" (VStr "$400,000.00")).
  - exact sample_fields_resolved.
  - vm_compute. reflexivity.
Defined.

(** ** Document field extraction *)

(** *** The loop in closed form

    What one pass over the blocks computes, written with the program's
    own look-ups ([blocks_by_id], [child_text]). *)

Definition is_key_block (b : block) : bool :=
  String.eqb (BlockType b) "KEY_VALUE_SET" &&
  bool_decide ("KEY" ∈ default [] (EntityTypes b)).

(** The ids of the child fragments of a block, in order. *)
Definition child_ids (b : block) : list string :=
  flat_map Ids
    (List.filter (fun rel => String.eqb (Type_ rel) "CHILD") (default [] (Relationships b))).

(** The concatenated text of the child fragments of a block. *)
Definition fragments_text (response : analysis) (b : block) : string :=
  String.concat "" (map (child_text response) (child_ids b)).

(** The value block paired with a key block, when the pairing and the
    block exist. *)
Definition value_block (response : analysis) (b : block) : option block :=
  rel ← List.find (fun rel => String.eqb (Type_ rel) "VALUE") (default [] (Relationships b));
  vid ← head (Ids rel);
  blocks_by_id response !! vid.

Definition label_of (response : analysis) (b : block) : string :=
  strip (fragments_text response b).

Definition value_of (response : analysis) (b : block) : string :=
  strip (from_option (fragments_text response) "" (value_block response b)).

(** The label and value of every key block, in document order. *)
Definition labelled_pairs (response : analysis) : list (string * string) :=
  map (fun b => (label_of response b, value_of response b))
      (List.filter is_key_block (Blocks response)).

Definition insert_pairs (pairs : list (string * string)) (fields : odict string) : odict string :=
  fold_left (fun d kv => od_set kv.1 kv.2 d) pairs fields.

Definition extracted_fields (response : analysis) : odict string :=
  insert_pairs (labelled_pairs response) [].

(** The shape the service gives a response: a key-value block carries its
    entity types, and the value pairing of a key names its value block by
    a non-empty id. *)
Definition block_wf (b : block) : bool :=
  if String.eqb (BlockType b) "KEY_VALUE_SET" then
    match EntityTypes b with
    | None => false
    | Some ets =>
        if bool_decide ("KEY" ∈ ets) then
          match List.find (fun rel => String.eqb (Type_ rel) "VALUE")
                          (default [] (Relationships b)) with
          | Some rel =>
              match Ids rel with
              | [] => false
              | vid :: _ => negb (String.eqb vid "")
              end
          | None => true
          end
        else true
    end
  else true.

Definition response_wf (response : analysis) : bool := forallb block_wf (Blocks response).

(** *** Strings *)

Lemma append_cons (c : ascii) (s t : string) : String c s +:+ t = String c (s +:+ t).
Proof. reflexivity. Qed.

Lemma append_nil_r (s : string) : s +:+ "" = s.
Proof. induction s as [| c s IH]; [done | by rewrite append_cons, IH]. Qed.

Lemma append_assoc (s t u : string) : (s +:+ t) +:+ u = s +:+ (t +:+ u).
Proof. induction s as [| c s IH]; [done | by rewrite !append_cons, IH]. Qed.

Lemma concat_nil_app (l1 l2 : list string) :
  String.concat "" (l1 ++ l2) = String.concat "" l1 +:+ String.concat "" l2.
Proof.
  induction l1 as [| s l1 IH]; [done|].
  destruct l1 as [| t l1].
  - simpl. destruct l2; simpl; [by rewrite append_nil_r | done].
  - change (String.concat "" ((s :: t :: l1) ++ l2))
      with (s +:+ "" +:+ String.concat "" ((t :: l1) ++ l2)).
    rewrite IH. simpl. by rewrite append_assoc.
Qed.

Lemma concat_nil_cons (s : string) (l : list string) :
  String.concat "" (s :: l) = s +:+ String.concat "" l.
Proof. apply (concat_nil_app [s] l). Qed.

(** *** The loops compute the concatenations *)

Lemma append_ids (response : analysis) (ids : list string) (acc : string) :
  fold_left (fun acc cid => acc +:+ child_text response cid) ids acc
    = acc +:+ String.concat "" (map (child_text response) ids).
Proof.
  revert acc. induction ids as [| i ids IH]; intros acc.
  - simpl. by rewrite append_nil_r.
  - cbn [fold_left map]. rewrite IH, concat_nil_cons. apply append_assoc.
Qed.

Lemma append_children_concat (response : analysis) (rels : list relationship) (acc : string) :
  append_children response rels acc
    = acc +:+ String.concat ""
        (map (child_text response)
           (flat_map Ids (List.filter (fun rel => String.eqb (Type_ rel) "CHILD") rels))).
Proof.
  unfold append_children. revert acc.
  induction rels as [| rel rels IH]; intros acc.
  - simpl. by rewrite append_nil_r.
  - cbn [fold_left List.filter]. destruct (String.eqb (Type_ rel) "CHILD").
    + rewrite IH, append_ids. cbn [flat_map]. rewrite map_app, concat_nil_app.
      apply append_assoc.
    + apply IH.
Qed.

Lemma children_text (response : analysis) (b : block) :
  match Relationships b with
  | Some ((_ :: _) as rels) => append_children response rels ""
  | _ => ""
  end = fragments_text response b.
Proof.
  unfold fragments_text, child_ids.
  destruct (Relationships b) as [[| rel rels] |]; [done | | done].
  rewrite append_children_concat. reflexivity.
Qed.

(** *** One block *)

Lemma extract_step_spec (response : analysis) (fields : odict string) (b : block) :
  block_wf b = true ->
  extract_step response (blocks_by_id response) fields b =
    Ok (if is_key_block b
        then od_set (label_of response b) (value_of response b) fields
        else fields).
Proof.
  unfold block_wf, extract_step, is_key_block, label_of, value_of, value_block,
    first_value_id.
  destruct (String.eqb (BlockType b) "KEY_VALUE_SET"); [|done].
  destruct (EntityTypes b) as [ets |]; [|done].
  cbn [andb default from_option id mbind result_bind].
  destruct (bool_decide ("KEY" ∈ ets)); [|done].
  intros Hwf. rewrite children_text.
  destruct (List.find _ (default [] (Relationships b))) as [rel |]; [|reflexivity].
  simpl. destruct (Ids rel) as [| vid ids]; [done|].
  simpl. destruct (String.eqb vid ""); [done|].
  simpl. destruct (blocks_by_id response !! vid) as [vb |]; [|reflexivity].
  simpl. rewrite children_text. reflexivity.
Qed.

Lemma extract_loop_spec (response : analysis) (bs : list block) (fields : odict string) :
  forallb block_wf bs = true ->
  extract_loop response (blocks_by_id response) fields bs =
    Ok (insert_pairs
          (map (fun b => (label_of response b, value_of response b))
               (List.filter is_key_block bs))
          fields).
Proof.
  revert fields. induction bs as [| b bs IH]; intros fields Hwf; [done|].
  cbn [forallb] in Hwf. apply andb_true_iff in Hwf as [Hb Hbs].
  cbn [extract_loop]. rewrite (extract_step_spec _ _ _ Hb).
  cbn [mbind result_bind List.filter]. rewrite (IH _ Hbs).
  by destruct (is_key_block b).
Qed.

(** *** Insertion keyed by label: the last write wins *)

Lemma od_get_set {V} (k l : string) (v : V) (d : odict V) :
  od_get l (od_set k v d) = if String.eqb k l then Some v else od_get l d.
Proof.
  induction d as [| [k' v'] d IH]; simpl.
  - done.
  - destruct (String.eqb k' k) eqn:Hk; simpl.
    + apply String.eqb_eq in Hk as ->. by destruct (String.eqb k l).
    + rewrite IH. destruct (String.eqb k' l) eqn:Hl; [|done].
      apply String.eqb_eq in Hl as ->. apply String.eqb_neq in Hk.
      destruct (String.eqb_spec k l); congruence.
Qed.

Lemma od_get_app {V} (l : string) (d1 d2 : odict V) :
  od_get l (d1 ++ d2) = match od_get l d1 with Some v => Some v | None => od_get l d2 end.
Proof.
  induction d1 as [| [k v] d1 IH]; simpl; [done|].
  by destruct (String.eqb k l).
Qed.

Lemma od_get_insert_pairs (l : string) (pairs : list (string * string)) (d : odict string) :
  od_get l (insert_pairs pairs d) =
    match od_get l (rev pairs) with Some v => Some v | None => od_get l d end.
Proof.
  unfold insert_pairs. revert d. induction pairs as [| [k v] pairs IH]; intros d; [done|].
  cbn [fold_left rev]. rewrite IH, od_get_app, od_get_set. simpl.
  destruct (od_get l (rev pairs)); [done|]. by destruct (String.eqb k l).
Qed.

Lemma od_keys_set {V} (k : string) (v : V) (d : odict V) :
  od_keys (od_set k v d) = if bool_decide (k ∈ od_keys d) then od_keys d else od_keys d ++ [k].
Proof.
  unfold od_keys. induction d as [| [k' v'] d IH]; simpl; [done|].
  destruct (String.eqb k' k) eqn:Hk.
  - apply String.eqb_eq in Hk as ->. simpl. clear IH.
    case_bool_decide as Hin; [done|]. exfalso. apply Hin, list_elem_of_here.
  - apply String.eqb_neq in Hk. simpl. rewrite IH. clear IH.
    repeat case_bool_decide; try done.
    + exfalso. by apply H0, list_elem_of_further.
    + exfalso. apply elem_of_cons in H0 as [-> | ?]; done.
Qed.

Lemma od_keys_set_NoDup {V} (k : string) (v : V) (d : odict V) :
  NoDup (od_keys d) -> NoDup (od_keys (od_set k v d)).
Proof.
  intros Hnd. rewrite od_keys_set. case_bool_decide; [done|].
  apply NoDup_app. split; [done|]. split.
  - intros x Hx ->%list_elem_of_singleton. done.
  - apply NoDup_singleton.
Qed.

Lemma od_keys_set_elem {V} (k l : string) (v : V) (d : odict V) :
  l ∈ od_keys (od_set k v d) <-> l = k \/ l ∈ od_keys d.
Proof.
  rewrite od_keys_set. case_bool_decide.
  - split; [auto | intros [-> | ?]; done].
  - rewrite elem_of_app, list_elem_of_singleton. tauto.
Qed.

Lemma insert_pairs_keys (pairs : list (string * string)) (d : odict string) :
  NoDup (od_keys d) ->
  NoDup (od_keys (insert_pairs pairs d)) /\
  (forall l, l ∈ od_keys (insert_pairs pairs d) <-> l ∈ pairs.*1 \/ l ∈ od_keys d) /\
  (length (insert_pairs pairs d) <= length pairs + length d)%nat.
Proof.
  unfold insert_pairs. revert d. induction pairs as [| [k v] pairs IH]; intros d Hnd.
  - simpl. split; [done|]. split; [|lia]. intros l. rewrite elem_of_nil. tauto.
  - cbn [fold_left]. simpl.
    destruct (IH (od_set k v d) (od_keys_set_NoDup k v d Hnd)) as (H1 & H2 & H3).
    split; [done|]. split.
    + intros l. rewrite H2, od_keys_set_elem, elem_of_cons. tauto.
    + etrans; [exact H3|].
      assert (length (od_set k v d) <= S (length d))%nat; [|lia].
      clear. induction d as [| [k' v'] d IH]; simpl; [lia|].
      destruct (String.eqb k' k); simpl; lia.
Qed.

Lemma od_set_fresh {V} (k : string) (v : V) (d : odict V) :
  k ∉ od_keys d -> od_set k v d = d ++ [(k, v)].
Proof.
  unfold od_keys. induction d as [| [k' v'] d IH]; simpl; intros Hk; [done|].
  apply not_elem_of_cons in Hk as [Hne Hk].
  destruct (String.eqb_spec k' k); [congruence|]. by rewrite IH.
Qed.

Lemma insert_pairs_distinct (pairs : list (string * string)) (d : odict string) :
  NoDup (od_keys d ++ pairs.*1) -> insert_pairs pairs d = d ++ pairs.
Proof.
  unfold insert_pairs. revert d. induction pairs as [| [k v] pairs IH]; intros d Hnd.
  - by rewrite app_nil_r.
  - cbn [fold_left]. simpl in *.
    apply NoDup_app in Hnd as (Hd & Hdis & Hp).
    rewrite od_set_fresh by (intros Hk; apply (Hdis k Hk), list_elem_of_here).
    rewrite IH; [by rewrite <- app_assoc|].
    unfold od_keys. rewrite map_app. simpl. rewrite <- app_assoc. simpl.
    apply NoDup_app. split; [done|]. split; [|done].
    intros x Hx Hin. by apply (Hdis x Hx).
Qed.

(** *** The extraction as the specification words it

    Nothing here is taken from the program: a block is found in the
    response by the id that names it, and the mapping is described by
    what a label looks up. *)

(** The block of the response that an id names. *)
Definition block_named (response : analysis) (id : string) : option block :=
  List.find (fun b => String.eqb (Id b) id) (Blocks response).

(** The text of the fragment an id names; empty when no block has the
    id or the block carries no text. *)
Definition fragment (response : analysis) (id : string) : string :=
  match block_named response id with
  | Some b => default "" (Text b)
  | None => ""
  end.

(** The concatenated text of the child fragments of a block. *)
Definition fragments (response : analysis) (b : block) : string :=
  String.concat "" (map (fragment response) (child_ids b)).

(** The value block a key block is paired with: the block named by the
    first id of its value relationship. *)
Definition paired_value (response : analysis) (b : block) : option block :=
  rel ← List.find (fun rel => String.eqb (Type_ rel) "VALUE") (default [] (Relationships b));
  vid ← head (Ids rel);
  block_named response vid.

Definition label (response : analysis) (b : block) : string :=
  strip (fragments response b).

Definition value_text (response : analysis) (b : block) : string :=
  strip (match paired_value response b with
         | Some vb => fragments response vb
         | None => ""
         end).

(** The label and value of every key block, in document order. *)
Definition key_value_pairs (response : analysis) : list (string * string) :=
  map (fun b => (label response b, value_text response b))
      (List.filter is_key_block (Blocks response)).

(** What a label looks up: the value of the last pair with that label. *)
Definition last_value (l : string) (pairs : list (string * string)) : option string :=
  snd <$> last (List.filter (fun kv => bool_decide (kv.1 = l)) pairs).

(** The shape the service gives a response: no two blocks share an id,
    and the blocks are as [block_wf] says. *)
Definition service_shape (response : analysis) : bool :=
  response_wf response && bool_decide (NoDup (map Id (Blocks response))).

(** *** Blocks by id *)

Lemma find_id_absent (P : block -> bool) (id : string) (bs : list block) :
  id ∉ map Id bs -> List.find (fun b => String.eqb (Id b) id && P b) bs = None.
Proof.
  induction bs as [| b bs IH]; simpl; intros Hid; [done|].
  apply not_elem_of_cons in Hid as [Hne Hid].
  destruct (String.eqb_spec (Id b) id) as [Heq | _]; [congruence|]. by apply IH.
Qed.

Lemma find_snoc {A} (f : A -> bool) (l : list A) (x : A) :
  List.find f (l ++ [x]) =
    match List.find f l with
    | Some y => Some y
    | None => if f x then Some x else None
    end.
Proof. induction l as [| y l IH]; simpl; [done|]. by destruct (f y). Qed.

Lemma blocks_by_id_named (response : analysis) (id : string) :
  NoDup (map Id (Blocks response)) ->
  blocks_by_id response !! id = block_named response id.
Proof.
  unfold blocks_by_id, block_named.
  induction (Blocks response) as [| b bs IH] using rev_ind; intros Hnd; [done|].
  rewrite map_app in Hnd. apply NoDup_app in Hnd as (Hbs & Hdis & _).
  rewrite fold_left_app, find_snoc. simpl.
  destruct (String.eqb_spec (Id b) id) as [<- | Hne].
  - rewrite lookup_insert_eq.
    assert (List.find (fun b0 => String.eqb (Id b0) (Id b)) bs = None) as ->; [|done].
    assert (Id b ∉ map Id bs) as Hb.
    { intros Hin. apply (Hdis _ Hin). simpl. apply list_elem_of_here. }
    clear -Hb. induction bs as [| b0 bs IH]; simpl in *; [done|].
    apply not_elem_of_cons in Hb as [Hne Hb].
    destruct (String.eqb_spec (Id b0) (Id b)) as [Heq | _]; [congruence|]. by apply IH.
  - rewrite lookup_insert_ne by done. rewrite IH by done.
    by destruct (List.find _ bs).
Qed.

Lemma child_text_fragment (response : analysis) (cid : string) :
  NoDup (map Id (Blocks response)) ->
  child_text response cid = fragment response cid.
Proof.
  unfold child_text, fragment, block_named.
  induction (Blocks response) as [| b bs IH]; intros Hnd; [done|].
  simpl in Hnd. apply NoDup_cons in Hnd as [Hb Hbs]. simpl.
  destruct (String.eqb_spec (Id b) cid) as [<- | Hne]; simpl; [|by apply IH].
  case_bool_decide as Ht; simpl.
  - done.
  - rewrite (find_id_absent _ (Id b) bs Hb).
    destruct (Text b) as [t |]; [|done]. exfalso. apply Ht. eauto.
Qed.

Lemma fragments_text_fragments (response : analysis) (b : block) :
  NoDup (map Id (Blocks response)) ->
  fragments_text response b = fragments response b.
Proof.
  intros Hnd. unfold fragments_text, fragments. f_equal.
  apply map_ext. intros cid. by apply child_text_fragment.
Qed.

Lemma labelled_pairs_key_value (response : analysis) :
  NoDup (map Id (Blocks response)) ->
  labelled_pairs response = key_value_pairs response.
Proof.
  intros Hnd. unfold labelled_pairs, key_value_pairs. apply map_ext. intros b.
  unfold label_of, label, value_of, value_text, value_block, paired_value.
  rewrite (fragments_text_fragments _ _ Hnd). f_equal. f_equal.
  destruct (List.find _ (default [] (Relationships b))) as [rel |]; [|done]. simpl.
  destruct (head (Ids rel)) as [vid |]; [|done]. simpl.
  rewrite (blocks_by_id_named _ _ Hnd).
  destruct (block_named response vid) as [vb |]; [|done]. simpl.
  by apply fragments_text_fragments.
Qed.

Lemma od_get_rev_last (l : string) (pairs : list (string * string)) :
  od_get l (rev pairs) = last_value l pairs.
Proof.
  unfold last_value.
  induction pairs as [| [k v] pairs IH] using rev_ind; [done|].
  rewrite rev_app_distr, List.filter_app, last_app. simpl.
  destruct (String.eqb_spec k l) as [-> | Hne].
  - by rewrite bool_decide_eq_true_2.
  - rewrite bool_decide_eq_false_2 by done. simpl. exact IH.
Qed.

Lemma last_value_unique (l v : string) (pairs : list (string * string)) :
  NoDup pairs.*1 -> (l, v) ∈ pairs -> last_value l pairs = Some v.
Proof.
  unfold last_value. induction pairs as [| [k u] pairs IH]; intros Hnd Hin.
  - by apply elem_of_nil in Hin.
  - rewrite fmap_cons in Hnd. apply NoDup_cons in Hnd as [Hk Hnd]. simpl in *.
    apply elem_of_cons in Hin as [[= <- <-] | Hin].
    + rewrite bool_decide_eq_true_2 by done.
      assert (List.filter (fun kv : string * string => bool_decide (kv.1 = l)) pairs = []) as ->;
        [|done].
      clear -Hk. induction pairs as [| [k' u'] pairs IH]; [done|]. simpl in *.
      apply not_elem_of_cons in Hk as [Hne Hk].
      rewrite bool_decide_eq_false_2 by congruence. by apply IH.
    + rewrite bool_decide_eq_false_2.
      * by apply IH.
      * intros ->. apply Hk. apply list_elem_of_fmap. by exists (l, v).
Qed.


(** Claim C10. On a response of the service's shape the extraction
    returns a mapping with one entry for each label that some key block
    carries. A label looks up the value of the last key block with that
    label; with distinct labels the mapping lists the key blocks' labels
    and values in document order. Label and value are the trimmed
    concatenation of the texts of the fragments named by the block's
    child ids, the value being read from the block named by the key's
    value relationship. A key block without value relationship, or
    whose value id names no block, or whose value block has no child
    fragment, gets the empty value; a key block without child fragment
    gets the empty label. *)
Theorem extraction_is_keyed_by_label
    (analyze_document : list event -> string -> value -> result analysis)
    (s3_bucket : string) (s3_key : value) (w : world) (response : analysis) :
  analyze_document (trace w) s3_bucket s3_key = Ok response ->
  service_shape response = true ->
  exists fields,
    (extract_from_textract analyze_document s3_bucket s3_key w).1 = Ok fields /\
    (forall l, od_get l fields = last_value l (key_value_pairs response)) /\
    NoDup (od_keys fields) /\
    (forall l, l ∈ od_keys fields <->
       exists b, b ∈ Blocks response /\ is_key_block b = true /\ label response b = l) /\
    (length fields <= length (List.filter is_key_block (Blocks response)))%nat /\
    (NoDup (key_value_pairs response).*1 -> fields = key_value_pairs response) /\
    (forall b rel vid vb,
       b ∈ Blocks response -> is_key_block b = true ->
       NoDup (key_value_pairs response).*1 ->
       List.find (fun rel => String.eqb (Type_ rel) "VALUE") (default [] (Relationships b))
         = Some rel ->
       head (Ids rel) = Some vid ->
       vb ∈ Blocks response -> Id vb = vid ->
       od_get (label response b) fields
         = Some (strip (String.concat "" (map (fragment response) (child_ids vb))))) /\
    (forall b,
       b ∈ Blocks response -> is_key_block b = true ->
       NoDup (key_value_pairs response).*1 ->
       paired_value response b = None ->
       od_get (label response b) fields = Some "") /\
    (forall b,
       b ∈ Blocks response -> is_key_block b = true -> child_ids b = [] ->
       "" ∈ od_keys fields).
Proof.
  intros Hresp Hshape. apply andb_true_iff in Hshape as [Hwf Hnd].
  apply bool_decide_eq_true in Hnd.
  exists (extracted_fields response).
  split.
  { unfold extract_from_textract. rewrite Hresp. simpl.
    unfold textract_fields. by rewrite (extract_loop_spec _ _ _ Hwf). }
  unfold extracted_fields. rewrite (labelled_pairs_key_value _ Hnd).
  destruct (insert_pairs_keys (key_value_pairs response) [] (NoDup_nil_2))
    as (Hkeysnd & Hkeys & Hlen).
  assert (forall l, od_get l (insert_pairs (key_value_pairs response) [])
                    = last_value l (key_value_pairs response)) as Hget.
  { intros l. rewrite od_get_insert_pairs, od_get_rev_last.
    by destruct (last_value l (key_value_pairs response)). }
  assert (forall l, l ∈ od_keys (insert_pairs (key_value_pairs response) []) <->
            exists b, b ∈ Blocks response /\ is_key_block b = true /\ label response b = l)
    as Hlabels.
  { intros l. rewrite Hkeys. unfold key_value_pairs, od_keys. simpl.
    rewrite elem_of_nil, <- list_fmap_compose.
    split.
    - intros [Hl | []]. apply list_elem_of_fmap in Hl as (b & -> & Hb).
      apply list_elem_of_In, filter_In in Hb as [Hb Hk].
      exists b. by rewrite list_elem_of_In.
    - intros (b & Hb & Hk & <-). left. apply list_elem_of_fmap. exists b. split; [done|].
      apply list_elem_of_In, filter_In. by rewrite <- list_elem_of_In. }
  assert (forall b, b ∈ Blocks response -> is_key_block b = true ->
            NoDup (key_value_pairs response).*1 ->
            od_get (label response b) (insert_pairs (key_value_pairs response) [])
              = Some (value_text response b)) as Hvalue.
  { intros b Hb Hk Hdis. rewrite Hget. apply last_value_unique; [done|].
    unfold key_value_pairs. apply list_elem_of_fmap. exists b. split; [done|].
    apply list_elem_of_In, filter_In. by rewrite <- list_elem_of_In. }
  split; [exact Hget|].
  split; [exact Hkeysnd|].
  split; [exact Hlabels|].
  split.
  { etrans; [exact Hlen|]. unfold key_value_pairs. rewrite length_map. simpl. lia. }
  split.
  { intros Hdis. by rewrite insert_pairs_distinct. }
  split.
  { intros b rel vid vb Hb Hk Hdis Hrel Hvid Hvb Hid.
    rewrite (Hvalue b Hb Hk Hdis). unfold value_text, paired_value.
    rewrite Hrel. simpl. rewrite Hvid. simpl.
    assert (block_named response vid = Some vb) as ->; [|done].
    unfold block_named. subst vid. clear -Hnd Hvb.
    induction (Blocks response) as [| b0 bs IH]; [by apply elem_of_nil in Hvb|].
    simpl in Hnd. apply NoDup_cons in Hnd as [Hb0 Hbs]. simpl.
    apply elem_of_cons in Hvb as [-> | Hvb].
    - by rewrite String.eqb_refl.
    - destruct (String.eqb_spec (Id b0) (Id vb)) as [Heq | _]; [|by apply IH].
      exfalso. apply Hb0. rewrite Heq. apply list_elem_of_fmap. by exists vb. }
  split.
  { intros b Hb Hk Hdis Hnone. rewrite (Hvalue b Hb Hk Hdis).
    unfold value_text. by rewrite Hnone. }
  { intros b Hb Hk Hch. apply Hlabels. exists b. split; [done|]. split; [done|].
    unfold label, fragments. by rewrite Hch. }
Qed.


(** A scanned form: an amount with its value, a rate read twice (the
    second time with a value block that is missing) and one key block
    without any relationship. *)
Definition form_response : analysis :=
  {| Blocks :=
       [ {| Id := "k1"; BlockType := "KEY_VALUE_SET"; EntityTypes := Some ["KEY"];
            Relationships := Some [ {| Type_ := "VALUE"; Ids := ["v1"] |};
                                    {| Type_ := "CHILD"; Ids := ["w1"; "w2"] |} ];
            Text := None |};
         {| Id := "v1"; BlockType := "KEY_VALUE_SET"; EntityTypes := Some ["VALUE"];
            Relationships := Some [ {| Type_ := "CHILD"; Ids := ["w3"] |} ];
            Text := None |};
         {| Id := "w1"; BlockType := "WORD"; EntityTypes := None;
            Relationships := None; Text := Some " Loan " |};
         {| Id := "w2"; BlockType := "WORD"; EntityTypes := None;
            Relationships := None; Text := Some "Amount:" |};
         {| Id := "w3"; BlockType := "WORD"; EntityTypes := None;
            Relationships := None; Text := Some "400000 " |};
         {| Id := "k2"; BlockType := "KEY_VALUE_SET"; EntityTypes := Some ["KEY"];
            Relationships := Some [ {| Type_ := "CHILD"; Ids := ["w4"] |};
                                    {| Type_ := "VALUE"; Ids := ["v2"] |} ];
            Text := None |};
         {| Id := "v2"; BlockType := "KEY_VALUE_SET"; EntityTypes := Some ["VALUE"];
            Relationships := Some [ {| Type_ := "CHILD"; Ids := ["w5"] |} ];
            Text := None |};
         {| Id := "w4"; BlockType := "WORD"; EntityTypes := None;
            Relationships := None; Text := Some "Rate:" |};
         {| Id := "w5"; BlockType := "WORD"; EntityTypes := None;
            Relationships := None; Text := Some "7.25%" |};
         {| Id := "k3"; BlockType := "KEY_VALUE_SET"; EntityTypes := Some ["KEY"];
            Relationships := Some [ {| Type_ := "CHILD"; Ids := ["w4"] |};
                                    {| Type_ := "VALUE"; Ids := ["v9"] |} ];
            Text := None |};
         {| Id := "k4"; BlockType := "KEY_VALUE_SET"; EntityTypes := Some ["KEY"];
            Relationships := None; Text := None |} ] |}.

Lemma extraction_of_form_response :
  exists fields,
    (extract_from_textract (fun _ _ _ => Ok form_response) bucket_name
       (VStr "cams/APP-001.pdf") start).1 = Ok fields /\
    od_get "Loan Amount:" fields = Some "400000" /\
    od_get "Rate:" fields = Some "" /\
    od_get "" fields = Some "" /\
    od_get "Term:" fields = None /\
    od_keys fields = ["Loan Amount:"; "Rate:"; ""].
Proof.
  destruct (extraction_is_keyed_by_label (fun _ _ _ => Ok form_response) bucket_name
              (VStr "cams/APP-001.pdf") start form_response eq_refl)
    as (fields & Hfields & Hget & Hnd & Hkeys & _).
  { vm_compute. reflexivity. }
  exists fields. split; [exact Hfields|].
  rewrite !Hget.
  repeat split; try (vm_compute; reflexivity).
  assert (Ok fields = Ok [("Loan Amount:", "400000"); ("Rate:", ""); ("", "")]) as Heq
    by (rewrite <- Hfields; vm_compute; reflexivity).
  injection Heq as ->. reflexivity.
Defined.

(** A scanned memo with one key read twice (first with its value, then
    with a value block that is missing) and one key block without any
    relationship. *)
Definition memo_response : analysis :=
  {| Blocks :=
       [ {| Id := "k1"; BlockType := "KEY_VALUE_SET"; EntityTypes := Some ["KEY"];
            Relationships := Some [ {| Type_ := "VALUE"; Ids := ["v1"] |};
                                    {| Type_ := "CHILD"; Ids := ["w1"; "w2"] |} ];
            Text := None |};
         {| Id := "v1"; BlockType := "KEY_VALUE_SET"; EntityTypes := Some ["VALUE"];
            Relationships := Some [ {| Type_ := "CHILD"; Ids := ["w3"] |} ];
            Text := None |};
         {| Id := "w1"; BlockType := "WORD"; EntityTypes := None;
            Relationships := None; Text := Some " Loan " |};
         {| Id := "w2"; BlockType := "WORD"; EntityTypes := None;
            Relationships := None; Text := Some "Amount:" |};
         {| Id := "w3"; BlockType := "WORD"; EntityTypes := None;
            Relationships := None; Text := Some "400000 " |};
         {| Id := "k2"; BlockType := "KEY_VALUE_SET"; EntityTypes := Some ["KEY"];
            Relationships := Some [ {| Type_ := "CHILD"; Ids := ["w1"; "w2"] |};
                                    {| Type_ := "VALUE"; Ids := ["v9"] |} ];
            Text := None |};
         {| Id := "k3"; BlockType := "KEY_VALUE_SET"; EntityTypes := Some ["KEY"];
            Relationships := None; Text := None |} ] |}.

(** Outside that shape the extraction can raise: a value pairing that
    lists no id. *)
Example value_pairing_without_id_raises :
  textract_fields
    {| Blocks := [ {| Id := "k1"; BlockType := "KEY_VALUE_SET"; EntityTypes := Some ["KEY"];
                      Relationships := Some [ {| Type_ := "VALUE"; Ids := [] |} ];
                      Text := None |} ] |}
    = Raise IndexError.
Proof. reflexivity. Qed.

(** ** The narrative step *)

Section Narrative.
Context (analyze_document : list event -> string -> value -> result analysis).
Context (invoke_model : list event -> bedrock_request -> result response_body).

(** The state after one more service call. *)
Definition after (w : world) (e : event) : world :=
  {| trace := trace w ++ [e]; drawn := drawn w |}.

Lemma getitem_notnull (row : gmap string value) (k : string) :
  notnull (get row k VNone) = true -> getitem row k = Ok (get row k VNone).
Proof. unfold get, getitem. by destruct (row !! k). Qed.

(** The source text, case by case. *)
Lemma select_cam_text_cases (row : gmap string value) (w : world) :
  let text := get row "cam_content" VNone in
  let key := get row "cam_s3_key" VNone in
  select_cam_text analyze_document row w =
    if notnull text then (Ok text, w)
    else if notnull key then
      match analyze_document (trace w) bucket_name key ≫= textract_fields with
      | Ok fields =>
          (Ok (VStr (serialize_fields fields)), after w (AnalyzeDocument bucket_name key))
      | Raise _ => (Ok VNone, after w (AnalyzeDocument bucket_name key))
      end
    else (Ok VNone, w).
Proof.
  intros text key. unfold select_cam_text. fold text key.
  destruct (notnull text) eqn:Htext.
  { unfold lift. by rewrite (getitem_notnull _ _ Htext). }
  destruct (notnull key) eqn:Hkey; [|done].
  unfold try_except, lift, mbind, M_bind, extract_from_textract.
  rewrite (getitem_notnull _ _ Hkey). fold key.
  destruct (analyze_document (trace w) bucket_name key) as [response | e]; [|done].
  simpl. by destruct (textract_fields response).
Qed.

Lemma generation_trace (cam_text : value) (w : world) :
  (generate_approval_conditions invoke_model cam_text w).2
    = after w (InvokeModel (approval_request cam_text)).
Proof.
  unfold generate_approval_conditions.
  destruct (invoke_model _ _) as [[[[| [t |] items] |]] | e]; reflexivity.
Qed.

(** The conditions of a row, from its source text. *)
Lemma approval_conditions_cases (row : gmap string value) (w : world) :
  approval_conditions analyze_document invoke_model row w =
    match select_cam_text analyze_document row w with
    | (Ok cam_text, w1) =>
        if truthy cam_text
        then generate_approval_conditions invoke_model cam_text w1
        else (Ok fallback, w1)
    | (Raise e, w1) => (Raise e, w1)
    end.
Proof.
  unfold approval_conditions, mbind, M_bind.
  destruct (select_cam_text analyze_document row w) as [[cam_text | e] w1]; [|done].
  by destruct (truthy cam_text).
Qed.

(** A failure of the extraction leaves the sentinel, and one call made. *)
Lemma extraction_failure_degrades (row : gmap string value) (w : world) (e : exn) :
  notnull (get row "cam_content" VNone) = false ->
  notnull (get row "cam_s3_key" VNone) = true ->
  analyze_document (trace w) bucket_name (get row "cam_s3_key" VNone) ≫= textract_fields
    = Raise e ->
  approval_conditions analyze_document invoke_model row w
    = (Ok fallback, after w (AnalyzeDocument bucket_name (get row "cam_s3_key" VNone))).
Proof.
  intros Htext Hkey He.
  rewrite approval_conditions_cases, select_cam_text_cases. cbv zeta.
  by rewrite Htext, Hkey, He.
Qed.

(** A failure of the generation is the outcome of the narrative step. *)
Lemma generation_failure_propagates (row : gmap string value) (w : world) (e : exn) :
  let text := get row "cam_content" VNone in
  notnull text = true -> truthy text = true ->
  invoke_model (trace w) (approval_request text) = Raise e ->
  (approval_conditions analyze_document invoke_model row w).1 = Raise e.
Proof.
  intros text Htext Htruthy He.
  rewrite approval_conditions_cases, select_cam_text_cases. cbv zeta. fold text.
  rewrite Htext, Htruthy. unfold generate_approval_conditions. by rewrite He.
Qed.

(** Claim C2, as the code has it. A non-null [cam_content] is the source
    text and no extraction is made; generation is called on it unless it
    is empty. Otherwise a non-null [cam_s3_key] makes the extraction the
    first call, and generation the second when the extraction returned
    fields that serialize to a non-empty text; when it raised or found
    nothing the sentinel is used and generation is not called. With
    neither column the sentinel is used and no call is made. *)
Theorem narrative_source_order (row : gmap string value) (w : world) :
  let text := get row "cam_content" VNone in
  let key := get row "cam_s3_key" VNone in
  let outcome := approval_conditions analyze_document invoke_model row w in
  (notnull text = true ->
     if truthy text
     then outcome = generate_approval_conditions invoke_model text w /\
          trace outcome.2 = trace w ++ [InvokeModel (approval_request text)]
     else outcome = (Ok fallback, w)) /\
  (notnull text = false -> notnull key = true ->
     let extracted := after w (AnalyzeDocument bucket_name key) in
     match analyze_document (trace w) bucket_name key ≫= textract_fields with
     | Ok fields =>
         let cam_text := VStr (serialize_fields fields) in
         if truthy cam_text
         then outcome = generate_approval_conditions invoke_model cam_text extracted /\
              trace outcome.2 =
                trace w ++ [AnalyzeDocument bucket_name key;
                            InvokeModel (approval_request cam_text)]
         else outcome = (Ok fallback, extracted)
     | Raise _ => outcome = (Ok fallback, extracted)
     end) /\
  (notnull text = false -> notnull key = false -> outcome = (Ok fallback, w)).
Proof.
  intros text key outcome. subst outcome.
  rewrite approval_conditions_cases, select_cam_text_cases. fold text key.
  split; [|split].
  - intros ->. destruct (truthy text); [|done].
    split; [done|]. by rewrite generation_trace.
  - intros -> ->. cbv zeta.
    destruct (analyze_document (trace w) bucket_name key ≫= textract_fields)
      as [fields | e]; [|done].
    destruct (truthy (VStr (serialize_fields fields))); [|done].
    split; [done|]. rewrite generation_trace. simpl. by rewrite <- app_assoc.
  - by intros -> ->.
Qed.

(** The claim as worded: with a document location and no memo text, the
    extraction and then the generation are called. *)
Definition extraction_then_generation (row : gmap string value) : Prop :=
  notnull (get row "cam_content" VNone) = false ->
  notnull (get row "cam_s3_key" VNone) = true ->
  exists request,
    trace (approval_conditions analyze_document invoke_model row start).2
      = [AnalyzeDocument bucket_name (get row "cam_s3_key" VNone); InvokeModel request].
End Narrative.

(** A row with a scanned memo only, and a scan in which the analysis finds
    no form field. *)
Definition scan_only_row : gmap string value :=
  list_to_map
    [ ("application_id", VStr "APP-001"); ("client_id", VStr "CL-001");
      ("template_id", VStr "TEMPLATE-002"); ("cam_content", nan);
      ("cam_s3_key", VStr "cams/APP-001.pdf") ].

Definition no_fields_found : list event -> string -> value -> result analysis :=
  fun _ _ _ => Ok {| Blocks := [] |}.

Definition conditions_generated : list event -> bedrock_request -> result response_body :=
  fun _ _ => Ok {| content := Some [Some "1. Proof of insurance."] |}.

Lemma empty_extraction_skips_generation :
  approval_conditions no_fields_found conditions_generated scan_only_row start
    = (Ok fallback, {| trace := [AnalyzeDocument bucket_name (VStr "cams/APP-001.pdf")];
                       drawn := 0 |}) /\
  ~ extraction_then_generation no_fields_found conditions_generated scan_only_row.
Proof.
  assert (approval_conditions no_fields_found conditions_generated scan_only_row start
    = (Ok fallback, {| trace := [AnalyzeDocument bucket_name (VStr "cams/APP-001.pdf")];
                       drawn := 0 |})) as Heval by (vm_compute; reflexivity).
  split; [exact Heval|].
  intros Hclaim. destruct (Hclaim eq_refl eq_refl) as [request Htrace].
  rewrite Heval in Htrace. discriminate Htrace.
Qed.

(** ** The loop over the rows *)

(** The template id a row resolves to. *)
Definition template_of (row : gmap string value) : value :=
  if notnull (get row "template_id" VNone)
  then get row "template_id" VNone
  else VStr "TEMPLATE-001".

Lemma resolve_template_id_total (row : gmap string value) :
  resolve_template_id row = Ok (template_of row).
Proof.
  unfold resolve_template_id, template_of, get, getitem.
  destruct (row !! "template_id") as [v |]; simpl; [by destruct (notnull v) | done].
Qed.

(** The row's template is in the template catalog. *)
Definition in_catalog (template_map : gmap string template_info)
    (row : gmap string value) : bool :=
  bool_decide (is_Some (get_by_value template_map (template_of row))).

Section Loop.
Context (analyze_document : list event -> string -> value -> result analysis).
Context (invoke_model : list event -> bedrock_request -> result response_body).
Context (render : string -> gmap string value -> result string).
Context (uuid4 : nat -> string).
Context (today : string).

Abbreviation process_row := (process_row analyze_document invoke_model render uuid4 today).
Abbreviation main_loop := (main_loop analyze_document invoke_model render uuid4 today).

Lemma process_row_skips (template_map : gmap string template_info)
    (row : gmap string value) (w : world) :
  get_by_value template_map (template_of row) = None ->
  process_row template_map row w = (Ok None, w).
Proof.
  intros Hnone. unfold Lambda.process_row, mbind, M_bind, lift.
  by rewrite resolve_template_id_total, Hnone.
Qed.

Lemma process_row_emits (template_map : gmap string template_info)
    (row : gmap string value) (w w' : world) (info : template_info)
    (r : option agreement) :
  get_by_value template_map (template_of row) = Some info ->
  process_row template_map row w = (Ok r, w') ->
  exists a, r = Some a /\ status a = "Generated" /\
            out_template_id a = template_of row /\
            out_template_name a = name info.
Proof.
  intros Hinfo. unfold Lambda.process_row, mbind, M_bind, lift, fresh_uuid, mret, M_ret.
  rewrite resolve_template_id_total, Hinfo.
  destruct (build_context today (template_of row) row) as [ctx |]; [|discriminate].
  destruct (approval_conditions analyze_document invoke_model row w)
    as [[conditions |] w1]; [|discriminate].
  destruct (render _ _) as [text |]; [|discriminate].
  destruct (getitem row "application_id") as [app |]; [|discriminate].
  destruct (getitem row "client_id") as [cli |]; [|discriminate].
  intros [= <- <-]. eauto.
Qed.

Lemma main_loop_output (template_map : gmap string template_info)
    (rows : list (gmap string value)) (out out' : list agreement) (w w' : world) :
  main_loop template_map rows out w = (Ok out', w') ->
  exists new,
    out' = out ++ new /\
    length new = length (List.filter (in_catalog template_map) rows) /\
    Forall (fun a => status a = "Generated") new.
Proof.
  revert out w. induction rows as [| row rows IH]; intros out w.
  - intros [= <- <-]. exists []. by rewrite app_nil_r.
  - cbn [Lambda.main_loop List.filter]. unfold mbind, M_bind.
    destruct (process_row template_map row w) as [[r |] w1] eqn:Hrow; [|discriminate].
    intros Hrest. apply IH in Hrest as (new & -> & Hlen & Hall).
    unfold in_catalog at 1.
    destruct (get_by_value template_map (template_of row)) as [info |] eqn:Hinfo.
    + destruct (process_row_emits _ _ _ _ _ _ Hinfo Hrow) as (a & -> & Hst & _).
      rewrite bool_decide_eq_true_2 by eauto.
      exists (a :: new). rewrite <- app_assoc. simpl. rewrite Hlen. auto.
    + rewrite (process_row_skips _ _ _ Hinfo) in Hrow. injection Hrow as <- <-.
      rewrite bool_decide_eq_false_2 by (intros [? ?]; done).
      exists new. auto.
Qed.

(** The claim as worded: a row whose template id has no field mapping
    is skipped. *)
Definition unmapped_row_skipped (template_map : gmap string template_info)
    (row : gmap string value) : Prop :=
  get_by_value template_mappings (template_of row) = None ->
  forall w, (process_row template_map row w).1 = Ok None.

(** Claim C4, as the code has it. A row is skipped exactly when its
    template id is not in the template catalog, whether or not the id
    has a field mapping; the rows a completed loop appends are as many
    as the rows whose template is in the catalog, so the output has the
    input rows minus the skipped ones. *)
Theorem skipped_rows_are_those_without_template
    (template_map : gmap string template_info) (row : gmap string value) (w : world) :
  (get_by_value template_map (template_of row) = None ->
     process_row template_map row w = (Ok None, w)) /\
  (is_Some (get_by_value template_map (template_of row)) ->
     (process_row template_map row w).1 <> Ok None) /\
  (forall rows out out' w',
     main_loop template_map rows out w = (Ok out', w') ->
     exists new,
       out' = out ++ new /\
       (length new + length (List.filter (fun r => negb (in_catalog template_map r)) rows)
          = length rows)%nat).
Proof.
  split; [apply process_row_skips|]. split.
  - intros [info Hinfo] Hnone.
    destruct (process_row template_map row w) as [r w1] eqn:Hrow. simpl in Hnone. subst r.
    by destruct (process_row_emits _ _ _ _ _ _ Hinfo Hrow) as (a & ? & _).
  - intros rows out out' w' Hloop.
    destruct (main_loop_output _ _ _ _ _ _ Hloop) as (new & -> & Hlen & _).
    exists new. split; [done|]. rewrite Hlen. clear.
    induction rows as [| r rows IH]; [done|]. simpl.
    destruct (in_catalog template_map r); simpl; lia.
Qed.
End Loop.

(** ** A small run *)

Definition loan_applications : DataFrame :=
  {| columns := ["application_id"; "client_id"; "template_id"; "loan_type"];
     rows := [ [VStr "APP-001"; VStr "CL-001"; VStr "TEMPLATE-002"; VStr "Personal"];
               [VStr "APP-002"; VStr "CL-002"; VStr "TEMPLATE-999"; VStr "Auto"] ] |}.

Definition clients : DataFrame :=
  {| columns := ["client_id"; "full_name"; "annual_income"; "credit_score"];
     rows := [ [VStr "CL-001"; VStr "Ann Lee"; VInt 90000; VInt 710];
               [VStr "CL-002"; VStr "Raj Rao"; VInt 70000; VInt 680] ] |}.

Definition borrowing_requests : DataFrame :=
  {| columns := ["request_id"; "application_id"; "client_id"; "requested_amount"; "loan_purpose"];
     rows := [ [VStr "BR-001"; VStr "APP-001"; VStr "CL-001"; VInt 25000; VStr "Renovation"];
               [VStr "BR-002"; VStr "APP-002"; VStr "CL-002"; VInt 18000; VStr "Car"] ] |}.

Definition underwriting_decisions : DataFrame :=
  {| columns := ["application_id"; "approved_amount"; "final_rate"];
     rows := [ [VStr "APP-001"; VInt 25000; VFloat (b64_of_decimal false 725 (-2))];
               [VStr "APP-002"; VInt 18000; VFloat (b64_of_decimal false 69 (-1))] ] |}.

Definition credit_approval_memos : DataFrame :=
  {| columns := ["cam_id"; "application_id"; "cam_content"; "cam_s3_key"];
     rows := [ [VStr "CAM-001"; VStr "APP-001"; VStr "Approved subject to appraisal."; nan];
               [VStr "CAM-002"; VStr "APP-002"; nan; nan] ] |}.

Definition term_sheets : DataFrame :=
  {| columns := ["application_id"; "term_months"; "monthly_installment"];
     rows := [ [VStr "APP-001"; VInt 60; VFloat (b64_of_decimal false 49799 (-2))];
               [VStr "APP-002"; VInt 48; VFloat (b64_of_decimal false 43012 (-2))] ] |}.

Definition personal_loan : template_json :=
  {| template_id := "TEMPLATE-002"; template_name := Some "Personal Loan Agreement";
     template_content := "{{ borrower_name }} borrows {{ loan_amount }}. {{ approval_conditions }}" |}.

Definition unmapped_template : template_json :=
  {| template_id := "TEMPLATE-999"; template_name := Some "Auto Loan Agreement";
     template_content := "{{ borrower_name }} borrows {{ loan_amount }} from {{ lender_name }}." |}.

(** Services for the run: an analysis that is not reached, a generation
    that answers or that is throttled, a renderer that lists the
    placeholders it was given a value for, identifiers by rank. *)
Definition analysis_unreached : list event -> string -> value -> result analysis :=
  fun _ _ _ => Raise (ClientError "InvalidS3ObjectException").

Definition throttled : list event -> bedrock_request -> result response_body :=
  fun _ _ => Raise (ClientError "ThrottlingException").

Definition placeholders : list string :=
  ["borrower_name"; "loan_amount"; "lender_name"; "approval_conditions"].

Definition render_fields : string -> gmap string value -> result string :=
  fun _ context =>
    Ok (join "," (List.filter (fun f => bool_decide (is_Some (context !! f))) placeholders)).

Definition uuid_by_rank : nat -> string := fun n => "agreement-" +:+ str_of_N (N.of_nat n).

Definition run (invoke_model : list event -> bedrock_request -> result response_body)
    (templates : list template_json) : result (list agreement) * world :=
  main analysis_unreached invoke_model render_fields uuid_by_rank "2025-06-01"
    clients loan_applications borrowing_requests underwriting_decisions
    credit_approval_memos term_sheets templates start.

(** Claim C1, at the failing input. The first application has memo text
    and the generation service is throttled: the exception leaves the
    narrative step, the row and the run, and no row is written, where
    the claim has the sentinel and a completed row. The older revision
    has the generation inside the handled block and yields the sentinel. *)
Theorem generation_failure_aborts_run :
  (run throttled [personal_loan]).1 = Raise (ClientError "ThrottlingException") /\
  (Legacy.approval_conditions analysis_unreached throttled
     (list_to_map [("application_id", VStr "APP-001")]) start).1 = Ok fallback /\
  (Legacy.approval_conditions no_fields_found throttled
     (list_to_map [("application_id", VStr "APP-001")]) start).1 = Ok fallback.
Proof. repeat split; compute_refl. Qed.

(** With both templates in the catalog the application on TEMPLATE-999,
    which has no field mapping, is written like the other, rendered from
    the defaults and the narrative alone. *)
Lemma unmapped_template_is_rendered :
  ((fun out => map (fun a => (application_id a, out_template_id a, status a,
                              populated_agreement_content a)) out)
     <$> (run conditions_generated [personal_loan; unmapped_template]).1)
  = Ok [ (VStr "APP-001", VStr "TEMPLATE-002", "Generated",
          "borrower_name,loan_amount,lender_name,approval_conditions");
         (VStr "APP-002", VStr "TEMPLATE-999", "Generated",
          "lender_name,approval_conditions") ] /\
  ~ unmapped_row_skipped analysis_unreached conditions_generated render_fields uuid_by_rank
      "2025-06-01" (load_templates [personal_loan; unmapped_template])
      (list_to_map [("application_id", VStr "APP-002"); ("client_id", VStr "CL-002");
                    ("template_id", VStr "TEMPLATE-999")]).
Proof.
  split; [compute_refl|].
  intros Hclaim. specialize (Hclaim eq_refl start). vm_compute in Hclaim. discriminate Hclaim.
Qed.

(** With the catalog holding TEMPLATE-002 only, the application on
    TEMPLATE-999 is skipped and one row of two is written. *)
Example run_skips_row_without_template :
  (length <$> (run conditions_generated [personal_loan]).1) = Ok 1%nat /\
  length (rows loan_applications) = 2%nat.
Proof. split; compute_refl. Qed.

(** ** The record merger *)

(** *** Column labels *)

Lemma col_index_Some (c : string) (cols : list string) (i : nat) :
  col_index c cols = Some i -> cols !! i = Some c.
Proof.
  revert i. induction cols as [| c' cols IH]; intros i; simpl; [done|].
  destruct (String.eqb_spec c' c) as [-> | Hne].
  - by intros [= <-].
  - destruct (col_index c cols) as [k |]; simpl; [|done].
    intros [= <-]. by apply IH.
Qed.

Lemma col_index_elem (c : string) (cols : list string) :
  c ∈ cols -> is_Some (col_index c cols).
Proof.
  induction cols as [| c' cols IH]; simpl; intros Hin.
  - by apply elem_of_nil in Hin.
  - destruct (String.eqb_spec c' c) as [-> | Hne]; [eauto|].
    apply elem_of_cons in Hin as [-> | Hin]; [done|].
    destruct (IH Hin) as [k ->]. simpl. eauto.
Qed.

Lemma col_index_lt (c : string) (cols : list string) (i : nat) :
  col_index c cols = Some i -> (i < length cols)%nat.
Proof. intros H. apply col_index_Some in H. by apply lookup_lt_Some in H. Qed.

(** Relabelling leaves the position of a label that is kept and that no
    other label turns into. *)
Lemma col_index_relabel (f : string -> string) (c : string) (cols more : list string) :
  c ∈ cols -> f c = c -> (forall c', f c' = c -> c' = c) ->
  col_index c (map f cols ++ more) = col_index c cols.
Proof.
  intros Hin Hfc Hinj. induction cols as [| c' cols IH]; simpl.
  - by apply elem_of_nil in Hin.
  - destruct (String.eqb_spec c' c) as [-> | Hne].
    + rewrite Hfc. by rewrite String.eqb_refl.
    + destruct (String.eqb_spec (f c') c) as [Heq | _].
      { by apply Hinj in Heq. }
      apply elem_of_cons in Hin as [-> | Hin]; [done|]. by rewrite IH.
Qed.

(** The last character of a string. *)
Fixpoint last_char (s : string) : option ascii :=
  match s with
  | EmptyString => None
  | String c EmptyString => Some c
  | String _ s' => last_char s'
  end.

Lemma last_char_append (s : string) (c : ascii) (t : string) :
  last_char (s +:+ String c t) = last_char (String c t).
Proof.
  induction s as [| a s IH]; [done|].
  change (String a s +:+ String c t) with (String a (s +:+ String c t)).
  cbn [last_char]. rewrite IH.
  destruct s; reflexivity.
Qed.

(** A label that does not end in ["x"] or ["y"] is no suffixed label. *)
Lemma suffixed_to (on : string) (lcols rcols : list string) (sfx c c' : string) :
  (sfx = "_x" \/ sfx = "_y") ->
  last_char c <> Some "x"%char -> last_char c <> Some "y"%char ->
  suffixed on lcols rcols sfx c' = c -> c' = c.
Proof.
  intros Hsfx Hx Hy. unfold suffixed.
  destruct (_ && _ && _); [|done].
  intros <-. exfalso.
  destruct Hsfx as [-> | ->]; [apply Hx | apply Hy];
    by rewrite last_char_append.
Qed.

Lemma suffixed_key (on : string) (lcols rcols : list string) (sfx : string) :
  suffixed on lcols rcols sfx on = on.
Proof. unfold suffixed. by rewrite bool_decide_eq_false_2 by (intros H; done). Qed.

Lemma suffixed_absent (on : string) (lcols rcols : list string) (sfx c : string) :
  c ∉ rcols -> suffixed on lcols rcols sfx c = c.
Proof.
  intros Hc. unfold suffixed.
  by rewrite (bool_decide_eq_false_2 (c ∈ rcols)), andb_false_r.
Qed.

(** *** [drop] *)

Lemma select_not_elem (names cols : list string) (c : string) :
  c ∈ names ->
  c ∉ select (map (fun c => negb (bool_decide (c ∈ names))) cols) cols.
Proof.
  intros Hc. induction cols as [| c' cols IH]; simpl; [apply not_elem_of_nil|].
  case_bool_decide as Hin; simpl; [done|].
  apply not_elem_of_cons. split; [|done]. by intros ->.
Qed.

Lemma select_elem (names cols : list string) (c : string) :
  c ∉ names -> c ∈ cols ->
  c ∈ select (map (fun c => negb (bool_decide (c ∈ names))) cols) cols.
Proof.
  intros Hc. induction cols as [| c' cols IH]; simpl; intros Hin.
  - by apply elem_of_nil in Hin.
  - apply elem_of_cons in Hin as [<- | Hin].
    + rewrite bool_decide_eq_false_2 by done. apply list_elem_of_here.
    + case_bool_decide; simpl; [by apply IH|].
      apply list_elem_of_further. by apply IH.
Qed.

Lemma drop_columns_dropped (names : list string) (df : DataFrame) (c : string) :
  c ∈ names -> c ∉ columns (drop_columns names df).
Proof. apply select_not_elem. Qed.

Lemma drop_columns_kept (names : list string) (df : DataFrame) (c : string) :
  c ∉ names -> c ∈ columns df -> c ∈ columns (drop_columns names df).
Proof. apply select_elem. Qed.

(** *** Rows *)

(** The number of merged rows that a left row with key [key] gives when
    joined with [r] on [on]: one per matching row of [r], and one when
    none matches. *)
Definition copies (on : string) (r : DataFrame) (key : option value) : nat :=
  match col_index on (columns r) with
  | Some j => Nat.max 1 (length (List.filter (fun rr => key_match key (rr !! j)) (rows r)))
  | None => 1
  end.

(** Each element repeated as often as [c] says. *)
Definition expand {A} (c : A -> nat) (l : list A) : list A :=
  flat_map (fun a => replicate (c a) a) l.

Lemma expand_one {A} (l : list A) : expand (fun _ => 1%nat) l = l.
Proof. unfold expand. induction l as [| a l IH]; simpl; [done | by f_equal]. Qed.

Lemma flat_map_replicate {A} (k : A -> nat) (n : nat) (a : A) :
  flat_map (fun p => replicate (k p) p) (replicate n a) = replicate (n * k a) a.
Proof.
  induction n as [| n IH]; simpl; [done|]. by rewrite IH, replicate_add.
Qed.

Lemma expand_expand {A} (c k : A -> nat) (l : list A) :
  expand k (expand c l) = expand (fun a => (c a * k a)%nat) l.
Proof.
  unfold expand. induction l as [| a l IH]; simpl; [done|].
  by rewrite flat_map_app, IH, flat_map_replicate.
Qed.

Lemma expand_ext {A} (c k : A -> nat) (l : list A) :
  (forall a, a ∈ l -> c a = k a) -> expand c l = expand k l.
Proof.
  unfold expand. induction l as [| a l IH]; simpl; intros H; [done|].
  rewrite (H a) by apply list_elem_of_here.
  rewrite IH; [done|]. intros b Hb. by apply H, list_elem_of_further.
Qed.

Lemma expand_map {A B} (f : A -> B) (c : A -> nat) (l : list A) :
  map f (expand c l) = flat_map (fun a => replicate (c a) (f a)) l.
Proof.
  unfold expand. induction l as [| a l IH]; simpl; [done|].
  rewrite map_app, IH. f_equal. clear.
  induction (c a) as [| n IH]; simpl; [done | by rewrite IH].
Qed.

Lemma flat_map_replicate_ext {A B} (f : A -> B) (c k : A -> nat) (l : list A) :
  (forall a, c a = k a) ->
  flat_map (fun a => replicate (c a) (f a)) l = flat_map (fun a => replicate (k a) (f a)) l.
Proof.
  intros H. induction l as [| a l IH]; [done|]. cbn [flat_map]. by rewrite H, IH.
Qed.

Lemma flat_map_replicate_one {A B} (f : A -> B) (c : A -> nat) (l : list A) :
  (forall a, a ∈ l -> c a = 1%nat) ->
  flat_map (fun a => replicate (c a) (f a)) l = map f l.
Proof.
  induction l as [| a l IH]; intros H; [done|]. cbn [flat_map map].
  rewrite (H a) by apply list_elem_of_here.
  rewrite IH; [done|]. intros b Hb. by apply H, list_elem_of_further.
Qed.

Section Joined.
Context (i j width : nat) (rrows : list (list value)).

Lemma matching_key (lr lr' : list value) :
  lr !! i = lr' !! i -> matching i j rrows lr = matching i j rrows lr'.
Proof. unfold matching. by intros ->. Qed.

Lemma joined_prefix (n : nat) (lr : list value) :
  (n <= length lr)%nat ->
  map (take n) (joined i j width rrows lr)
    = replicate (Nat.max 1 (length (matching i j rrows lr))) (take n lr).
Proof.
  intros Hn. unfold joined.
  destruct (matching i j rrows lr) as [| m ms].
  - simpl. by rewrite take_app_le.
  - change (Nat.max 1 (length (m :: ms))) with (length (m :: ms)).
    induction (m :: ms) as [| rr rest IH]; simpl; [done|].
    by rewrite take_app_le, IH.
Qed.

Lemma joined_width (n : nat) (lr : list value) :
  (n <= length lr)%nat ->
  Forall (fun r => (n <= length r)%nat) (joined i j width rrows lr).
Proof.
  intros Hn. unfold joined.
  destruct (matching i j rrows lr) as [| m ms].
  - constructor; [|constructor]. rewrite length_app. lia.
  - apply Forall_forall. intros r Hr.
    apply list_elem_of_fmap in Hr as (rr & -> & _). rewrite length_app. lia.
Qed.

Lemma rows_prefix (n : nat) (lrows : list (list value)) :
  Forall (fun r => (n <= length r)%nat) lrows -> (i < n)%nat ->
  map (take n) (flat_map (joined i j width rrows) lrows)
    = expand (fun p => Nat.max 1 (length (matching i j rrows p))) (map (take n) lrows).
Proof.
  intros Hall Hi. unfold expand.
  induction Hall as [| lr lrows Hlr Hall IH]; simpl; [done|].
  rewrite map_app, IH, joined_prefix by done. f_equal.
  rewrite (matching_key lr (take n lr)); [done|]. by rewrite lookup_take_lt.
Qed.

Lemma rows_width (n : nat) (lrows : list (list value)) :
  Forall (fun r => (n <= length r)%nat) lrows ->
  Forall (fun r => (n <= length r)%nat) (flat_map (joined i j width rrows) lrows).
Proof.
  intros Hall. induction Hall as [| lr lrows Hlr Hall IH]; simpl; [constructor|].
  apply Forall_app. split; [by apply joined_width | done].
Qed.
End Joined.

(** The rows of [df] begin with the rows of [la], each as often as [c]
    says. *)
Definition tracks (la : DataFrame) (c : list value -> nat) (df : DataFrame) : Prop :=
  map (take (length (columns la))) (rows df) = expand c (rows la) /\
  Forall (fun r => (length (columns la) <= length r)%nat) (rows df).

Lemma tracks_start (la : DataFrame) : frame_wf la -> tracks la (fun _ => 1%nat) la.
Proof.
  intros Hwf. unfold tracks. rewrite expand_one. split.
  - unfold frame_wf in Hwf. induction Hwf as [| r rs Hr Hwf IH]; simpl; [done|].
    rewrite IH. f_equal. apply take_ge. lia.
  - eapply Forall_impl; [exact Hwf|]. simpl. intros r ->. done.
Qed.

(** One join of the chain. *)
Lemma merge_left_tracks (la l r : DataFrame) (c : list value -> nat) (on : string)
    (i : nat) :
  tracks la c l ->
  col_index on (columns l) = Some i ->
  (i < length (columns la))%nat ->
  on ∈ columns r ->
  exists df,
    merge_left l r on = Ok df /\
    tracks la (fun a => (c a * copies on r (a !! i))%nat) df /\
    (forall x, x ∈ columns l ->
       (x = on \/ x ∉ columns r) ->
       last_char x <> Some "x"%char -> last_char x <> Some "y"%char ->
       col_index x (columns df) = col_index x (columns l)).
Proof.
  intros [Hrows Hwidth] Hi Hlt Hon.
  destruct (col_index_elem on (columns r) Hon) as [j Hj].
  unfold merge_left. rewrite Hi, Hj. eexists. split; [reflexivity|].
  split; [split|]; simpl.
  - rewrite (rows_prefix _ _ _ _ _ _ Hwidth Hlt), Hrows, expand_expand.
    apply expand_ext. intros a _. unfold copies. by rewrite Hj.
  - by apply rows_width.
  - intros x Hx Hxr Hlx Hly. apply col_index_relabel; [done | |].
    + destruct Hxr as [-> | Hxr]; [apply suffixed_key | by apply suffixed_absent].
    + intros c'. apply suffixed_to; auto.
Qed.

Lemma col_index_is_Some (c : string) (cols : list string) :
  is_Some (col_index c cols) -> c ∈ cols.
Proof. intros [i Hi]. apply col_index_Some in Hi. by apply list_elem_of_lookup_2 in Hi. Qed.

Lemma copies_pos (on : string) (r : DataFrame) (key : option value) :
  (1 <= copies on r key)%nat.
Proof. unfold copies. destruct (col_index on (columns r)); lia. Qed.

(** *** The chain of joins *)

(** How many merged rows a loan application gives: one for each choice of
    a matching row in every joined set, a set without match counting for
    one. *)
Definition application_copies (clients borrowing_requests underwriting_decisions
    credit_approval_memos term_sheets : DataFrame) (ic ia : nat) (a : list value) : nat :=
  (copies "client_id" clients (a !! ic)
   * copies "application_id" (drop_columns DUPLICATE_KEYS borrowing_requests) (a !! ia)
   * copies "application_id" (drop_columns DUPLICATE_KEYS underwriting_decisions) (a !! ia)
   * copies "application_id" (drop_columns DUPLICATE_KEYS credit_approval_memos) (a !! ia)
   * copies "application_id" (drop_columns DUPLICATE_KEYS term_sheets) (a !! ia))%nat.

Lemma application_copies_pos cl br ud cam ts ic ia a :
  (1 <= application_copies cl br ud cam ts ic ia a)%nat.
Proof.
  unfold application_copies.
  repeat (apply (Nat.mul_le_mono 1 _ 1 _); [|apply copies_pos]). apply copies_pos.
Qed.

(** The claim as worded: one merged row per loan application, and no
    suffixed column. *)
Definition one_row_per_application (clients loan_applications borrowing_requests
    underwriting_decisions credit_approval_memos term_sheets : DataFrame) : Prop :=
  forall df,
    merge_frames clients loan_applications borrowing_requests underwriting_decisions
      credit_approval_memos term_sheets = Ok df ->
    NoDup (column_values "application_id" df) /\
    length (rows df) = length (rows loan_applications) /\
    Forall (fun c => last_char c <> Some "x"%char /\ last_char c <> Some "y"%char)
           (columns df).

(** When the frames have the join keys and the clients carry no
    [application_id], the chain of joins returns, and its result lists
    the loan applications as often as their matches say. *)
Lemma merge_frames_tracks_applications
    (clients loan_applications borrowing_requests underwriting_decisions
     credit_approval_memos term_sheets : DataFrame) (ia ic : nat) :
  frame_wf loan_applications ->
  col_index "application_id" (columns loan_applications) = Some ia ->
  col_index "client_id" (columns loan_applications) = Some ic ->
  "client_id" ∈ columns clients ->
  "application_id" ∉ columns clients ->
  "application_id" ∈ columns borrowing_requests ->
  "application_id" ∈ columns underwriting_decisions ->
  "application_id" ∈ columns credit_approval_memos ->
  "application_id" ∈ columns term_sheets ->
  let copies_of :=
    application_copies clients borrowing_requests underwriting_decisions
      credit_approval_memos term_sheets ic ia in
  exists with_clients df,
    merge_left loan_applications clients "client_id" = Ok with_clients /\
    merge_frames clients loan_applications borrowing_requests underwriting_decisions
      credit_approval_memos term_sheets = Ok df /\
    column_values "application_id" df
      = flat_map (fun a => replicate (copies_of a) (a !! ia)) (rows loan_applications) /\
    (forall a, a ∈ rows loan_applications -> a !! ia ∈ column_values "application_id" df) /\
    ((forall a, a ∈ rows loan_applications -> copies_of a = 1%nat) ->
     column_values "application_id" df = column_values "application_id" loan_applications /\
     length (rows df) = length (rows loan_applications)) /\
    (forall c, c ∈ DUPLICATE_KEYS -> c ∈ columns with_clients ->
       col_index c (columns df) = col_index c (columns with_clients)).
Proof.
  intros Hwf Hia Hic Hcl Hncl Hbr Hud Hcam Hts copies_of.
  pose proof (col_index_lt _ _ _ Hia) as Hia_lt.
  pose proof (col_index_lt _ _ _ Hic) as Hic_lt.
  assert (forall df, "application_id" ∈ columns df ->
            "application_id" ∈ columns (drop_columns DUPLICATE_KEYS df)) as Hkept.
  { intros df. apply drop_columns_kept. unfold DUPLICATE_KEYS.
    rewrite !not_elem_of_cons. repeat split; try discriminate. apply not_elem_of_nil. }
  assert (forall c, c ∈ DUPLICATE_KEYS ->
            last_char c <> Some "x"%char /\ last_char c <> Some "y"%char) as Hlast.
  { intros c Hc. unfold DUPLICATE_KEYS in Hc.
    rewrite !elem_of_cons, elem_of_nil in Hc. destruct Hc as [-> | [-> | []]]; by split. }
  (* the clients *)
  destruct (merge_left_tracks loan_applications loan_applications clients _ "client_id" ic
              (tracks_start _ Hwf) Hic Hic_lt Hcl) as (df1 & Hdf1 & Ht1 & Hc1).
  assert (col_index "application_id" (columns df1) = Some ia) as Hia1.
  { rewrite Hc1; [done | by apply col_index_is_Some | by right | done | done]. }
  (* the four sets keyed by application *)
  destruct (merge_left_tracks loan_applications df1 _ _ "application_id" ia
              Ht1 Hia1 Hia_lt (Hkept _ Hbr)) as (df2 & Hdf2 & Ht2 & Hc2).
  assert (col_index "application_id" (columns df2) = Some ia) as Hia2.
  { rewrite Hc2; [done | by apply col_index_is_Some | by left | done | done]. }
  destruct (merge_left_tracks loan_applications df2 _ _ "application_id" ia
              Ht2 Hia2 Hia_lt (Hkept _ Hud)) as (df3 & Hdf3 & Ht3 & Hc3).
  assert (col_index "application_id" (columns df3) = Some ia) as Hia3.
  { rewrite Hc3; [done | by apply col_index_is_Some | by left | done | done]. }
  destruct (merge_left_tracks loan_applications df3 _ _ "application_id" ia
              Ht3 Hia3 Hia_lt (Hkept _ Hcam)) as (df4 & Hdf4 & Ht4 & Hc4).
  assert (col_index "application_id" (columns df4) = Some ia) as Hia4.
  { rewrite Hc4; [done | by apply col_index_is_Some | by left | done | done]. }
  destruct (merge_left_tracks loan_applications df4 _ _ "application_id" ia
              Ht4 Hia4 Hia_lt (Hkept _ Hts)) as (df5 & Hdf5 & [Hrows5 Hwidth5] & Hc5).
  assert (col_index "application_id" (columns df5) = Some ia) as Hia5.
  { rewrite Hc5; [done | by apply col_index_is_Some | by left | done | done]. }
  exists df1, df5.
  split; [exact Hdf1|].
  split.
  { unfold merge_frames. rewrite Hdf1. cbn [mbind result_bind].
    rewrite Hdf2. cbn [mbind result_bind]. rewrite Hdf3. cbn [mbind result_bind].
    rewrite Hdf4. cbn [mbind result_bind]. exact Hdf5. }
  assert (column_values "application_id" df5
          = flat_map (fun a => replicate (copies_of a) (a !! ia)) (rows loan_applications))
    as Hvalues.
  { unfold column_values. rewrite Hia5.
    transitivity (map (fun r : list value => r !! ia)
                    (map (take (length (columns loan_applications))) (rows df5))).
    - rewrite map_map. apply map_ext_Forall.
      eapply Forall_impl; [exact Hwidth5|]. simpl. intros r Hr.
      by rewrite lookup_take_lt.
    - rewrite Hrows5, expand_map. unfold copies_of, application_copies.
      apply flat_map_replicate_ext. intros a. by rewrite Nat.mul_1_l. }
  split; [exact Hvalues|].
  split.
  { intros a Ha. rewrite Hvalues. apply list_elem_of_In, in_flat_map.
    exists a. split; [by apply list_elem_of_In|].
    pose proof (application_copies_pos clients borrowing_requests underwriting_decisions
                  credit_approval_memos term_sheets ic ia a) as Hpos.
    fold copies_of in Hpos. destruct (copies_of a); [lia|]. by left. }
  split.
  { intros Hone.
    assert (column_values "application_id" df5
            = column_values "application_id" loan_applications) as Hsame.
    { rewrite Hvalues. unfold column_values. rewrite Hia.
      by apply flat_map_replicate_one. }
    split; [exact Hsame|].
    apply (f_equal length) in Hsame. unfold column_values in Hsame.
    rewrite Hia5, Hia, !length_map in Hsame. exact Hsame. }
  intros c Hc Hc1in.
  destruct (Hlast c Hc) as [Hx Hy].
  assert (forall l, col_index c (columns l) = col_index c (columns df1) -> c ∈ columns l) as Hin.
  { intros l Hl. apply col_index_is_Some. rewrite Hl. by apply col_index_elem. }
  assert (forall df', c ∉ columns (drop_columns DUPLICATE_KEYS df')) as Hdropped.
  { intros df'. by apply drop_columns_dropped. }
  assert (col_index c (columns df2) = col_index c (columns df1)) as H2.
  { apply Hc2; [done | right; apply Hdropped | done | done]. }
  assert (col_index c (columns df3) = col_index c (columns df1)) as H3.
  { rewrite <- H2. apply Hc3; [by apply Hin | right; apply Hdropped | done | done]. }
  assert (col_index c (columns df4) = col_index c (columns df1)) as H4.
  { rewrite <- H3. apply Hc4; [by apply Hin | right; apply Hdropped | done | done]. }
  rewrite <- H4. apply Hc5; [by apply Hin | right; apply Hdropped | done | done].
Qed.

(** A join that returns had the key on both sides. *)
Lemma merge_left_keys (l r df : DataFrame) (on : string) :
  merge_left l r on = Ok df -> on ∈ columns l /\ on ∈ columns r.
Proof.
  unfold merge_left.
  destruct (col_index on (columns l)) as [i |] eqn:Hi; [|discriminate].
  destruct (col_index on (columns r)) as [j |] eqn:Hj; [|discriminate].
  intros _. split; apply col_index_is_Some; eauto.
Qed.

Lemma suffixed_shared (on : string) (lcols rcols : list string) (sfx c : string) :
  c <> on -> c ∈ lcols -> c ∈ rcols -> suffixed on lcols rcols sfx c = c +:+ sfx.
Proof. intros Hne Hl Hr. unfold suffixed. by rewrite !bool_decide_eq_true_2. Qed.

(** A column other than the key that both sides have is in the joined
    frame under both suffixes. *)
Lemma merge_left_suffixes (l r df : DataFrame) (on c : string) :
  merge_left l r on = Ok df ->
  c <> on -> c ∈ columns l -> c ∈ columns r ->
  (c +:+ "_x") ∈ columns df /\ (c +:+ "_y") ∈ columns df.
Proof.
  unfold merge_left.
  destruct (col_index on (columns l)) as [i |] eqn:Hi; [|discriminate].
  destruct (col_index on (columns r)) as [j |] eqn:Hj; [|discriminate].
  intros [= <-] Hne Hl Hr. simpl. rewrite !elem_of_app. split.
  - left. apply list_elem_of_fmap. exists c. by rewrite suffixed_shared.
  - right. apply list_elem_of_fmap. exists c. rewrite suffixed_shared by done.
    split; [done|].
    apply list_elem_of_lookup in Hr as [k Hk].
    apply col_index_Some in Hj.
    assert (k <> j) as Hkj by (intros ->; congruence).
    apply list_elem_of_lookup.
    destruct (decide (k < j)%nat).
    + exists k. by rewrite list_lookup_delete_lt.
    + exists (pred k). rewrite list_lookup_delete_ge by lia.
      replace (S (pred k)) with k by lia. done.
Qed.

(** ... and is no longer there under its own name, when the name does
    not itself end like a suffix. *)
Lemma merge_left_renamed (l r df : DataFrame) (on c : string) :
  merge_left l r on = Ok df ->
  c <> on -> c ∈ columns l -> c ∈ columns r ->
  last_char c <> Some "x"%char -> last_char c <> Some "y"%char ->
  c ∉ columns df.
Proof.
  unfold merge_left.
  destruct (col_index on (columns l)) as [i |] eqn:Hi; [|discriminate].
  destruct (col_index on (columns r)) as [j |] eqn:Hj; [|discriminate].
  intros [= <-] Hne Hl Hr Hx Hy. simpl.
  assert (forall sfx, sfx = "_x" \/ sfx = "_y" -> forall c',
            suffixed on (columns l) (columns r) sfx c' <> c) as Hnot.
  { intros sfx Hsfx c' Heq.
    assert (c' = c) as -> by (eapply suffixed_to; eauto).
    rewrite suffixed_shared in Heq by done.
    apply (f_equal last_char) in Heq.
    destruct Hsfx as [-> | ->]; rewrite last_char_append in Heq; simpl in Heq; congruence. }
  intros Hin. apply elem_of_app in Hin as [Hin | Hin];
    apply list_elem_of_fmap in Hin as (c' & Hc' & _); symmetry in Hc';
    by eapply Hnot in Hc'; eauto.
Qed.

Lemma drop_columns_subset (names : list string) (df : DataFrame) (c : string) :
  c ∈ columns (drop_columns names df) -> c ∈ columns df.
Proof.
  unfold drop_columns. simpl.
  induction (columns df) as [| c' cols IH]; simpl; [done|].
  destruct (negb (bool_decide (c' ∈ names))).
  - intros [-> | Hin]%elem_of_cons; [apply list_elem_of_here|].
    by apply list_elem_of_further, IH.
  - intros Hin. by apply list_elem_of_further, IH.
Qed.

(** Claim C3, as the code has it. Whenever the chain of joins returns a
    frame for loan applications that carry both keys, the
    [application_id] column of the result lists every loan application,
    in order, once for each combination of matching rows in the joined
    sets: at least once, and exactly once when no set has two rows
    matching the application. The columns [client_id] and
    [requested_amount] stay where the join with the clients left them,
    under their own names; a column other than the key that both sides
    of a join have appears in the joined frame under the suffixes [_x]
    and [_y]. *)
Theorem merge_frames_copies_applications
    (clients loan_applications borrowing_requests underwriting_decisions
     credit_approval_memos term_sheets df : DataFrame) (ia ic : nat) :
  frame_wf loan_applications ->
  col_index "application_id" (columns loan_applications) = Some ia ->
  col_index "client_id" (columns loan_applications) = Some ic ->
  merge_frames clients loan_applications borrowing_requests underwriting_decisions
    credit_approval_memos term_sheets = Ok df ->
  let copies_of :=
    application_copies clients borrowing_requests underwriting_decisions
      credit_approval_memos term_sheets ic ia in
  exists with_clients,
    merge_left loan_applications clients "client_id" = Ok with_clients /\
    column_values "application_id" df
      = flat_map (fun a => replicate (copies_of a) (a !! ia)) (rows loan_applications) /\
    (forall a, a ∈ rows loan_applications -> a !! ia ∈ column_values "application_id" df) /\
    ((forall a, a ∈ rows loan_applications -> copies_of a = 1%nat) ->
     column_values "application_id" df = column_values "application_id" loan_applications /\
     length (rows df) = length (rows loan_applications)) /\
    (forall c, c ∈ DUPLICATE_KEYS -> c ∈ columns with_clients ->
       col_index c (columns df) = col_index c (columns with_clients)) /\
    (forall l r on joined c,
       merge_left l r on = Ok joined ->
       c <> on -> c ∈ columns l -> c ∈ columns r ->
       (c +:+ "_x") ∈ columns joined /\ (c +:+ "_y") ∈ columns joined).
Proof.
  intros Hwf Hia Hic Hdf copies_of.
  pose proof Hdf as Hchain. unfold merge_frames in Hchain.
  apply bind_ok in Hchain as (df1 & H1 & Hchain).
  apply bind_ok in Hchain as (df2 & H2 & Hchain).
  apply bind_ok in Hchain as (df3 & H3 & Hchain).
  apply bind_ok in Hchain as (df4 & H4 & H5).
  destruct (merge_left_keys _ _ _ _ H1) as [_ Hcl].
  destruct (merge_left_keys _ _ _ _ H2) as [Hin1 Hbr].
  destruct (merge_left_keys _ _ _ _ H3) as [_ Hud].
  destruct (merge_left_keys _ _ _ _ H4) as [_ Hcam].
  destruct (merge_left_keys _ _ _ _ H5) as [_ Hts].
  apply drop_columns_subset in Hbr, Hud, Hcam, Hts.
  assert ("application_id" ∉ columns clients) as Hncl.
  { intros Hacl. revert Hin1.
    apply (merge_left_renamed _ _ _ _ _ H1); try done.
    apply col_index_is_Some. eauto. }
  destruct (merge_frames_tracks_applications clients loan_applications borrowing_requests
              underwriting_decisions credit_approval_memos term_sheets ia ic
              Hwf Hia Hic Hcl Hncl Hbr Hud Hcam Hts)
    as (with_clients & df' & Hwc & Hdf' & Hvalues & Hall & Hone & Hkeys).
  rewrite Hdf in Hdf'. injection Hdf' as <-.
  exists with_clients. repeat split; try done.
  - by apply Hone.
  - by apply Hone.
  - eapply merge_left_suffixes; eauto.
  - eapply merge_left_suffixes; eauto.
Qed.

(** The frames of the small run: every key matches once. *)
Definition merged_small_run : DataFrame :=
  {| columns :=
       ["application_id"; "client_id"; "template_id"; "loan_type"; "full_name";
        "annual_income"; "credit_score"; "request_id"; "loan_purpose";
        "approved_amount"; "final_rate"; "cam_id"; "cam_content"; "cam_s3_key";
        "term_months"; "monthly_installment"];
     rows :=
       [ [VStr "APP-001"; VStr "CL-001"; VStr "TEMPLATE-002"; VStr "Personal";
          VStr "Ann Lee"; VInt 90000; VInt 710; VStr "BR-001"; VStr "Renovation";
          VInt 25000; VFloat (b64_of_decimal false 725 (-2));
          VStr "CAM-001"; VStr "Approved subject to appraisal."; nan;
          VInt 60; VFloat (b64_of_decimal false 49799 (-2))];
         [VStr "APP-002"; VStr "CL-002"; VStr "TEMPLATE-999"; VStr "Auto";
          VStr "Raj Rao"; VInt 70000; VInt 680; VStr "BR-002"; VStr "Car";
          VInt 18000; VFloat (b64_of_decimal false 69 (-1));
          VStr "CAM-002"; nan; nan;
          VInt 48; VFloat (b64_of_decimal false 43012 (-2))] ] |}.

Lemma merge_of_small_run :
  (merge_frames clients loan_applications borrowing_requests underwriting_decisions
     credit_approval_memos term_sheets = Ok merged_small_run) /\
  (column_values "application_id" merged_small_run
     = [Some (VStr "APP-001"); Some (VStr "APP-002")]) /\
  (length (rows merged_small_run) = length (rows loan_applications)).
Proof.
  assert (merge_frames clients loan_applications borrowing_requests underwriting_decisions
            credit_approval_memos term_sheets = Ok merged_small_run) as Hdf
    by (vm_compute; reflexivity).
  destruct (merge_frames_copies_applications clients loan_applications borrowing_requests
              underwriting_decisions credit_approval_memos term_sheets merged_small_run 0 1)
    as (with_clients & _ & Hvalues & _ & Hone & _).
  - repeat constructor.
  - reflexivity.
  - reflexivity.
  - exact Hdf.
  - split; [exact Hdf|]. split.
    + rewrite Hvalues. vm_compute. reflexivity.
    + apply Hone. intros a Ha.
      unfold loan_applications in Ha. simpl in Ha.
      rewrite !elem_of_cons, elem_of_nil in Ha.
      destruct Ha as [-> | [-> | []]]; vm_compute; reflexivity.
Defined.

(** Two borrowing requests for the first application, and a [status]
    column in both the applications and the underwriting decisions. *)
Definition applications_with_status : DataFrame :=
  {| columns := ["application_id"; "client_id"; "template_id"; "status"];
     rows := [ [VStr "APP-001"; VStr "CL-001"; VStr "TEMPLATE-002"; VStr "Submitted"];
               [VStr "APP-002"; VStr "CL-002"; VStr "TEMPLATE-002"; VStr "Submitted"] ] |}.

Definition two_requests : DataFrame :=
  {| columns := ["request_id"; "application_id"; "client_id"; "requested_amount"; "loan_purpose"];
     rows := [ [VStr "BR-001"; VStr "APP-001"; VStr "CL-001"; VInt 25000; VStr "Renovation"];
               [VStr "BR-002"; VStr "APP-001"; VStr "CL-001"; VInt 5000; VStr "Furniture"];
               [VStr "BR-003"; VStr "APP-002"; VStr "CL-002"; VInt 18000; VStr "Car"] ] |}.

Definition decisions_with_status : DataFrame :=
  {| columns := ["application_id"; "approved_amount"; "final_rate"; "status"];
     rows := [ [VStr "APP-001"; VInt 25000; VFloat (b64_of_decimal false 725 (-2)); VStr "Approved"];
               [VStr "APP-002"; VInt 18000; VFloat (b64_of_decimal false 69 (-1)); VStr "Approved"] ] |}.

Definition merged_with_two_requests : DataFrame :=
  {| columns :=
       ["application_id"; "client_id"; "template_id"; "status_x"; "full_name";
        "annual_income"; "credit_score"; "request_id"; "loan_purpose";
        "approved_amount"; "final_rate"; "status_y"; "cam_id"; "cam_content";
        "cam_s3_key"; "term_months"; "monthly_installment"];
     rows :=
       [ [VStr "APP-001"; VStr "CL-001"; VStr "TEMPLATE-002"; VStr "Submitted";
          VStr "Ann Lee"; VInt 90000; VInt 710; VStr "BR-001"; VStr "Renovation";
          VInt 25000; VFloat (b64_of_decimal false 725 (-2)); VStr "Approved";
          VStr "CAM-001"; VStr "Approved subject to appraisal."; nan;
          VInt 60; VFloat (b64_of_decimal false 49799 (-2))];
         [VStr "APP-001"; VStr "CL-001"; VStr "TEMPLATE-002"; VStr "Submitted";
          VStr "Ann Lee"; VInt 90000; VInt 710; VStr "BR-002"; VStr "Furniture";
          VInt 25000; VFloat (b64_of_decimal false 725 (-2)); VStr "Approved";
          VStr "CAM-001"; VStr "Approved subject to appraisal."; nan;
          VInt 60; VFloat (b64_of_decimal false 49799 (-2))];
         [VStr "APP-002"; VStr "CL-002"; VStr "TEMPLATE-002"; VStr "Submitted";
          VStr "Raj Rao"; VInt 70000; VInt 680; VStr "BR-003"; VStr "Car";
          VInt 18000; VFloat (b64_of_decimal false 69 (-1)); VStr "Approved";
          VStr "CAM-002"; nan; nan;
          VInt 48; VFloat (b64_of_decimal false 43012 (-2))] ] |}.

Lemma two_requests_give_two_rows :
  merge_frames clients applications_with_status two_requests decisions_with_status
    credit_approval_memos term_sheets = Ok merged_with_two_requests /\
  column_values "application_id" merged_with_two_requests
    = [Some (VStr "APP-001"); Some (VStr "APP-001"); Some (VStr "APP-002")] /\
  ~ one_row_per_application clients applications_with_status two_requests
      decisions_with_status credit_approval_memos term_sheets.
Proof.
  assert (merge_frames clients applications_with_status two_requests decisions_with_status
            credit_approval_memos term_sheets = Ok merged_with_two_requests) as Hdf
    by (vm_compute; reflexivity).
  split; [exact Hdf|]. split; [reflexivity|].
  intros Hclaim. destruct (Hclaim _ Hdf) as (_ & Hlen & _). discriminate Hlen.
Qed.

(* ===================================================================== *)
(** * Further properties of the code *)
(* ===================================================================== *)

(** ** Frames: [drop], [merge] and the rows of [iterrows] *)

Lemma select_length {A B} (mask : list bool) (l : list A) (k : list B) :
  length l = length k -> length (select mask l) = length (select mask k).
Proof.
  revert l k. induction mask as [| b mask IH]; intros l k Hlen; [done|].
  destruct l as [| x l], k as [| y k]; simpl in *; try done.
  injection Hlen as Hlen. destruct b; simpl; by rewrite (IH l k).
Qed.

Lemma select_all {A} (mask : list bool) (l : list A) :
  length mask = length l -> Forall (fun b => b = true) mask -> select mask l = l.
Proof.
  revert l. induction mask as [| b mask IH]; intros [| x l] Hlen Hall; simpl in *; try done.
  apply Forall_cons in Hall as [-> Hall]. injection Hlen as Hlen. by rewrite IH.
Qed.

Lemma select_elem_iff (names cols : list string) (c : string) :
  c ∈ select (map (fun c => negb (bool_decide (c ∈ names))) cols) cols
  <-> c ∈ cols /\ c ∉ names.
Proof.
  split.
  - induction cols as [| c' cols IH]; simpl; [by intros H%elem_of_nil|].
    case_bool_decide as Hin; simpl.
    + intros H. destruct (IH H). split; [by apply list_elem_of_further | done].
    + intros [-> | H]%elem_of_cons.
      * split; [apply list_elem_of_here | done].
      * destruct (IH H). split; [by apply list_elem_of_further | done].
  - intros [Hc Hn]. by apply select_elem.
Qed.

Lemma select_select {A} (names : list string) (cols : list string) (l : list A) :
  length l = length cols ->
  let mask := map (fun c => negb (bool_decide (c ∈ names))) cols in
  select (map (fun c => negb (bool_decide (c ∈ names))) (select mask cols)) (select mask l)
    = select mask l.
Proof.
  intros Hlen mask. subst mask. revert l Hlen.
  induction cols as [| c cols IH]; intros [| x l] Hlen; simpl in *; try done.
  injection Hlen as Hlen.
  case_bool_decide as Hin; simpl.
  - by apply IH.
  - rewrite bool_decide_eq_false_2 by done. simpl. by rewrite IH.
Qed.

(** The labels and the shape of a frame after [drop]. *)
Lemma drop_columns_shape (names : list string) (df : DataFrame) :
  frame_wf df ->
  frame_wf (drop_columns names df) /\
  (forall c, c ∈ columns (drop_columns names df) <-> c ∈ columns df /\ c ∉ names) /\
  length (rows (drop_columns names df)) = length (rows df) /\
  ((forall c, c ∈ names -> c ∉ columns df) -> drop_columns names df = df) /\
  drop_columns names (drop_columns names df) = drop_columns names df.
Proof.
  intros Hwf. destruct df as [cols rws]. unfold frame_wf in *. simpl in *.
  split; [|split; [|split; [|split]]].
  - unfold drop_columns. simpl. apply Forall_forall. intros r Hr.
    apply list_elem_of_fmap in Hr as (r0 & -> & Hr0).
    rewrite Forall_forall in Hwf. by apply select_length, Hwf.
  - intros c. apply select_elem_iff.
  - unfold drop_columns. simpl. by rewrite length_map.
  - intros Hnone. unfold drop_columns. simpl.
    assert (Forall (fun b => b = true)
              (map (fun c => negb (bool_decide (c ∈ names))) cols)) as Hall.
    { apply Forall_forall. intros b Hb. apply list_elem_of_fmap in Hb as (c & -> & Hc).
      rewrite bool_decide_eq_false_2; [done|]. intros Hin. by apply (Hnone c Hin). }
    f_equal.
    + apply select_all; [by rewrite length_map | done].
    + induction Hwf as [| r rs Hr Hwf IH]; simpl; [done|].
      rewrite IH. f_equal. apply select_all; [by rewrite length_map | done].
  - unfold drop_columns. simpl. f_equal.
    + by apply (select_select names cols cols).
    + rewrite map_map.
      induction Hwf as [| r rs Hr Hwf IH]; simpl; [done|].
      rewrite IH. f_equal. by apply select_select.
Qed.

Lemma col_index_None (c : string) (cols : list string) :
  c ∉ cols -> col_index c cols = None.
Proof.
  induction cols as [| c' cols IH]; simpl; intros Hc; [done|].
  apply not_elem_of_cons in Hc as [Hne Hc].
  destruct (String.eqb_spec c' c) as [-> | _]; [done|]. by rewrite IH.
Qed.

(** The cell of a kept column is found in the shortened row at the
    column's new position. *)
Lemma select_cell (names cols : list string) (r : list value) (c : string) :
  c ∉ names -> length r = length cols ->
  let mask := map (fun c => negb (bool_decide (c ∈ names))) cols in
  match col_index c (select mask cols), col_index c cols with
  | Some i', Some i => select mask r !! i' = r !! i
  | None, None => True
  | _, _ => False
  end.
Proof.
  intros Hc. revert r. induction cols as [| c' cols IH]; intros [| v r] Hlen; try done.
  injection Hlen as Hlen. specialize (IH r Hlen). cbv zeta in *. cbn [map select col_index].
  case_bool_decide as Hin; cbn [negb].
  - (* dropped: it is not [c] *)
    destruct (String.eqb_spec c' c) as [-> | Hne]; [done|].
    destruct (col_index c (select _ cols)) as [i' |], (col_index c cols) as [i |];
      simpl; done.
  - cbn [col_index].
    destruct (String.eqb_spec c' c) as [-> | Hne]; [done|].
    destruct (col_index c (select _ cols)) as [i' |], (col_index c cols) as [i |];
      simpl; done.
Qed.

Lemma drop_columns_cells (names : list string) (df : DataFrame) (c : string) :
  frame_wf df -> c ∉ names ->
  column_values c (drop_columns names df) = column_values c df.
Proof.
  intros Hwf Hc. destruct df as [cols rws]. unfold frame_wf in Hwf.
  unfold column_values, drop_columns. cbn [columns rows] in *.
  pose proof (fun r => select_cell names cols r c Hc) as Hcell. cbv zeta in Hcell.
  destruct (col_index c (select _ cols)) as [i' |] eqn:Hi',
           (col_index c cols) as [i |] eqn:Hi.
  - rewrite map_map. apply map_ext_Forall.
    eapply Forall_impl; [exact Hwf|]. intros r Hr. by apply Hcell.
  - destruct rws as [| r rs]; [done|].
    apply Forall_cons in Hwf as [Hr _]. by specialize (Hcell r Hr).
  - destruct rws as [| r rs]; [done|].
    apply Forall_cons in Hwf as [Hr _]. by specialize (Hcell r Hr).
  - done.
Qed.

Lemma drop_columns_filter (names : list string) (df : DataFrame) :
  columns (drop_columns names df)
    = List.filter (fun c => negb (bool_decide (c ∈ names))) (columns df).
Proof.
  unfold drop_columns. cbn [columns].
  induction (columns df) as [| c cols IH]; [done|]. cbn [map select List.filter].
  destruct (negb (bool_decide (c ∈ names))); by rewrite IH.
Qed.


(** Property X1. What [main] does to each of the four later sets before
    joining it, [drop(columns=['client_id', 'requested_amount'],
    errors='ignore')], and [drop] for any list of names: the columns
    that remain are those not listed, in their order; every remaining
    column keeps its cells, row by row, so the join key
    [application_id] and all other data survive; the rows stay as wide
    as the column list; nothing changes when none of the names is a
    column; and dropping twice is dropping once. *)
Theorem drop_columns_laws (names : list string) (df : DataFrame) :
  frame_wf df ->
  frame_wf (drop_columns names df) /\
  columns (drop_columns names df)
    = List.filter (fun c => negb (bool_decide (c ∈ names))) (columns df) /\
  (forall c, c ∈ columns (drop_columns names df) <-> c ∈ columns df /\ c ∉ names) /\
  (forall c, c ∉ names -> column_values c (drop_columns names df) = column_values c df) /\
  column_values "application_id" (drop_columns DUPLICATE_KEYS df)
    = column_values "application_id" df /\
  (forall c, c ∈ DUPLICATE_KEYS -> column_values c (drop_columns DUPLICATE_KEYS df) = []) /\
  length (rows (drop_columns names df)) = length (rows df) /\
  ((forall c, c ∈ names -> c ∉ columns df) -> drop_columns names df = df) /\
  drop_columns names (drop_columns names df) = drop_columns names df.
Proof.
  intros Hwf.
  destruct (drop_columns_shape names df Hwf) as (H1 & H2 & H3 & H4 & H5).
  split; [exact H1|]. split; [apply drop_columns_filter|]. split; [exact H2|].
  split; [intros c Hc; by apply drop_columns_cells|].
  split.
  { apply drop_columns_cells; [done|]. unfold DUPLICATE_KEYS.
    rewrite !not_elem_of_cons. repeat split; try discriminate. apply not_elem_of_nil. }
  split.
  { intros c Hc. unfold column_values.
    rewrite col_index_None; [done|]. by apply drop_columns_dropped. }
  auto.
Qed.

Lemma drop_columns_laws_sample :
  columns (drop_columns DUPLICATE_KEYS borrowing_requests)
    = ["request_id"; "application_id"; "loan_purpose"] /\
  column_values "loan_purpose" (drop_columns DUPLICATE_KEYS borrowing_requests)
    = [Some (VStr "Renovation"); Some (VStr "Car")] /\
  frame_wf (drop_columns DUPLICATE_KEYS borrowing_requests).
Proof.
  destruct (drop_columns_laws DUPLICATE_KEYS borrowing_requests)
    as (Hwf & Hcols & _ & Hcells & _).
  { repeat constructor. }
  split; [rewrite Hcols; vm_compute; reflexivity|].
  split; [|exact Hwf].
  rewrite Hcells; [vm_compute; reflexivity|].
  apply (bool_decide_unpack _). vm_compute. exact I.
Defined.


(** A left join of two well-formed frames is well formed, has a column
    for each column of the left frame and for each column of the right
    frame but the key, and has at least as many rows as the left frame. *)
Lemma merge_left_shape (l r df : DataFrame) (on : string) :
  frame_wf l -> frame_wf r ->
  merge_left l r on = Ok df ->
  frame_wf df /\
  length (columns df) = (length (columns l) + (length (columns r) - 1))%nat /\
  (length (rows l) <= length (rows df))%nat.
Proof.
  intros Hl Hr. unfold merge_left.
  destruct (col_index on (columns l)) as [i |] eqn:Hi; [|discriminate].
  destruct (col_index on (columns r)) as [j |] eqn:Hj; [|discriminate].
  intros [= <-]. pose proof (col_index_lt _ _ _ Hj) as Hjlt.
  assert (length (delete j (columns r)) = (length (columns r) - 1)%nat) as Hdel.
  { rewrite length_delete; [lia|]. by apply lookup_lt_is_Some. }
  unfold frame_wf in *. simpl. split; [|split].
  - rewrite length_app, !length_map, Hdel.
    apply Forall_forall. intros row Hrow.
    apply list_elem_of_In, in_flat_map in Hrow as (lr & Hlr & Hrow).
    apply list_elem_of_In in Hlr, Hrow.
    rewrite Forall_forall in Hl. specialize (Hl lr Hlr).
    unfold joined in Hrow.
    destruct (matching i j (rows r) lr) as [| m ms] eqn:Hm.
    + apply list_elem_of_singleton in Hrow as ->.
      by rewrite length_app, length_replicate, Hl.
    + apply list_elem_of_fmap in Hrow as (rr & -> & Hrr).
      assert (rr ∈ rows r) as Hin.
      { rewrite <- Hm in Hrr. unfold matching in Hrr.
        apply list_elem_of_In, filter_In in Hrr as [Hrr _]. by apply list_elem_of_In. }
      rewrite Forall_forall in Hr. specialize (Hr rr Hin).
      rewrite length_app, Hl, length_delete by (apply lookup_lt_is_Some; lia).
      rewrite Hr. lia.
  - by rewrite length_app, !length_map, Hdel.
  - clear Hl. induction (rows l) as [| lr lrs IH]; [done|].
    cbn [flat_map length]. rewrite length_app.
    assert (1 <= length (joined i j (length (columns r) - 1) (rows r) lr))%nat; [|lia].
    unfold joined. destruct (matching i j (rows r) lr); simpl; lia.
Qed.

Lemma filter_none {A} (f : A -> bool) (l : list A) :
  (forall x, x ∈ l -> f x = false) -> List.filter f l = [].
Proof.
  induction l as [| x l IH]; intros H; [done|]. simpl.
  rewrite (H x) by apply list_elem_of_here.
  apply IH. intros y Hy. by apply H, list_elem_of_further.
Qed.

(** Property X3. When no row of the right frame matches, as with an empty right
    frame, the left join keeps the left rows in order, each followed by
    one [nan] for every right column other than the key. *)
Theorem merge_left_without_match (l r df : DataFrame) (on : string) (i j : nat) :
  col_index on (columns l) = Some i ->
  col_index on (columns r) = Some j ->
  (forall lr rr, lr ∈ rows l -> rr ∈ rows r -> key_match (lr !! i) (rr !! j) = false) ->
  merge_left l r on = Ok df ->
  rows df = map (fun lr => lr ++ replicate (length (columns r) - 1) nan) (rows l).
Proof.
  intros Hi Hj Hno. unfold merge_left. rewrite Hi, Hj. intros [= <-]. simpl.
  induction (rows l) as [| lr lrs IH]; [done|]. cbn [flat_map map].
  rewrite IH by (intros; apply Hno; [by apply list_elem_of_further | done]).
  assert (matching i j (rows r) lr = []) as Hm.
  { apply filter_none. intros rr Hrr. apply Hno; [apply list_elem_of_here | done]. }
  unfold joined. by rewrite Hm.
Qed.

Lemma merge_left_without_match_sample :
  exists df,
    merge_left loan_applications {| columns := ["application_id"; "cam_id"]; rows := [] |}
      "application_id" = Ok df /\
    rows df = map (fun lr => lr ++ [nan]) (rows loan_applications).
Proof.
  eexists. split; [reflexivity|].
  apply (merge_left_without_match loan_applications
           {| columns := ["application_id"; "cam_id"]; rows := [] |} _ "application_id" 0 0);
    [reflexivity | reflexivity | | reflexivity].
  intros lr rr _ Hrr. by apply elem_of_nil in Hrr.
Defined.

(** The cell a row holds under a label: that of the first column with
    the label. *)
Lemma zip_row_lookup (cols : list string) (r : list value) (c : string) :
  length r = length cols ->
  (list_to_map (zip cols r) : gmap string value) !! c =
    match col_index c cols with
    | Some i => r !! i
    | None => None
    end.
Proof.
  revert r.
  induction cols as [| c' cols IH]; intros [| v r] Hlen; simpl in *; try done.
  injection Hlen as Hlen.
  destruct (String.eqb_spec c' c) as [-> | Hne].
  - by rewrite lookup_insert_eq.
  - rewrite lookup_insert_ne by done. rewrite IH by done.
    by destruct (col_index c cols).
Qed.

(** ** Column rules on the rows of a frame *)

Lemma col_index_NoDup (cols : list string) (i : nat) (c : string) :
  NoDup cols -> cols !! i = Some c -> col_index c cols = Some i.
Proof.
  revert i. induction cols as [| c' cols IH]; intros i Hnd Hi; [done|].
  apply NoDup_cons in Hnd as [Hc' Hnd]. simpl.
  destruct i as [| i]; simpl in Hi.
  - injection Hi as ->. by rewrite String.eqb_refl.
  - destruct (String.eqb_spec c' c) as [-> | _].
    + exfalso. apply Hc'. by apply list_elem_of_lookup_2 in Hi.
    + by rewrite (IH i Hnd Hi).
Qed.

(** Property X4. For the row that [iterrows] yields for a row of a
    well-formed frame with distinct column labels, a column rule
    ([row.get(src, "N/A")]) gives the cell of that column as it is in
    the frame, null or not, and gives ["N/A"] exactly when the frame has
    no such column. *)
Theorem column_rule_on_frame_row (df : DataFrame) (k : nat) (r : list value) (c : string) :
  frame_wf df -> NoDup (columns df) -> rows df !! k = Some r ->
  exists row,
    iterrows df !! k = Some row /\
    (forall i, columns df !! i = Some c ->
       exists v, r !! i = Some v /\ row !! c = Some v /\
                 get row c (VStr "N/A") = v /\
                 eval_source (Column c) row = Ok v) /\
    (c ∉ columns df ->
       row !! c = None /\ eval_source (Column c) row = Ok (VStr "N/A")) /\
    (forall i, columns df !! i = Some c -> r !! i = Some nan ->
       eval_source (Column c) row = Ok nan).
Proof.
  intros Hwf Hnd Hr.
  assert (length r = length (columns df)) as Hlen.
  { unfold frame_wf in Hwf. rewrite Forall_forall in Hwf.
    apply Hwf. by apply list_elem_of_lookup_2 in Hr. }
  exists (list_to_map (zip (columns df) r)).
  split.
  { unfold iterrows. by rewrite list_lookup_fmap, Hr. }
  pose proof (zip_row_lookup (columns df) r c Hlen) as Hrow.
  assert (forall i, columns df !! i = Some c ->
            exists v, r !! i = Some v /\
              (list_to_map (zip (columns df) r) : gmap string value) !! c = Some v) as Hcell.
  { intros i Hi. rewrite Hrow, (col_index_NoDup _ _ _ Hnd Hi).
    destruct (r !! i) as [v |] eqn:Hv; [eauto|].
    apply lookup_ge_None in Hv. apply lookup_lt_Some in Hi. lia. }
  split; [|split].
  - intros i Hi. destruct (Hcell i Hi) as (v & Hv & Hl).
    exists v. unfold eval_source, get. rewrite Hl. auto.
  - intros Hc. rewrite col_index_None in Hrow by done.
    unfold eval_source, get. by rewrite Hrow.
  - intros i Hi Hnan. destruct (Hcell i Hi) as (v & Hv & Hl).
    unfold eval_source, get. rewrite Hl. simpl. congruence.
Qed.

Lemma column_rule_on_frame_row_sample :
  exists row,
    iterrows gap_applications !! 0%nat = Some row /\
    eval_source (Column "client_id") row = Ok (VStr "CL-404") /\
    eval_source (Column "full_name") row = Ok (VStr "N/A").
Proof.
  destruct (column_rule_on_frame_row gap_applications 0
              [VStr "APP-001"; VStr "CL-404"; VStr "TEMPLATE-001"; VInt 400000; VInt 500000]
              "client_id") as (row & Hrow & Hcell & _).
  { repeat constructor. }
  { apply (bool_decide_unpack _). vm_compute. exact I. }
  { reflexivity. }
  destruct (column_rule_on_frame_row gap_applications 0
              [VStr "APP-001"; VStr "CL-404"; VStr "TEMPLATE-001"; VInt 400000; VInt 500000]
              "full_name") as (row' & Hrow' & _ & Hmissing & _).
  { repeat constructor. }
  { apply (bool_decide_unpack _). vm_compute. exact I. }
  { reflexivity. }
  rewrite Hrow in Hrow'. injection Hrow' as <-.
  exists row. split; [exact Hrow|]. split.
  - destruct (Hcell 1%nat eq_refl) as (v & Hv & _ & _ & Heval).
    injection Hv as <-. exact Heval.
  - apply Hmissing. apply (bool_decide_unpack _). vm_compute. exact I.
Defined.

(** Property X5. A client set that itself carries an [application_id] column
    breaks the chain: the join with the clients renames the column on
    both sides, and the next join, keyed by [application_id], raises
    [KeyError]. *)
Theorem merge_frames_key_collision
    (clients loan_applications borrowing_requests underwriting_decisions
     credit_approval_memos term_sheets : DataFrame) :
  "client_id" ∈ columns loan_applications ->
  "client_id" ∈ columns clients ->
  "application_id" ∈ columns loan_applications ->
  "application_id" ∈ columns clients ->
  merge_frames clients loan_applications borrowing_requests underwriting_decisions
    credit_approval_memos term_sheets = Raise (KeyError "application_id").
Proof.
  intros Hla Hcl Hala Hacl.
  destruct (col_index_elem _ _ Hla) as [i Hi].
  destruct (col_index_elem _ _ Hcl) as [j Hj].
  unfold merge_frames, merge_left at 5. rewrite Hi, Hj. cbn [mbind result_bind].
  unfold merge_left at 4. cbn [columns].
  rewrite col_index_None; [done|].
  assert (forall sfx , sfx = "_x" \/ sfx = "_y" -> forall c,
            suffixed "client_id" (columns loan_applications) (columns clients) sfx c
              <> "application_id") as Hne.
  { intros sfx Hsfx c Heq.
    assert (c = "application_id") as -> by (eapply suffixed_to; eauto; discriminate).
    unfold suffixed in Heq.
    rewrite !bool_decide_eq_true_2 in Heq by done. cbn [andb] in Heq.
    apply (f_equal last_char) in Heq.
    destruct Hsfx as [-> | ->]; rewrite last_char_append in Heq; discriminate Heq. }
  intros Hin. apply elem_of_app in Hin as [Hin | Hin];
    apply list_elem_of_fmap in Hin as (c & Hc & _); symmetry in Hc;
    by eapply Hne in Hc; eauto.
Qed.

Lemma merge_frames_key_collision_sample :
  merge_frames
    {| columns := ["client_id"; "application_id"; "full_name"];
       rows := [[VStr "CL-001"; VStr "APP-001"; VStr "Ann Lee"]] |}
    loan_applications borrowing_requests underwriting_decisions
    credit_approval_memos term_sheets = Raise (KeyError "application_id").
Proof.
  apply merge_frames_key_collision; apply (bool_decide_unpack _); vm_compute; exact I.
Defined.

(** ** Trimmed texts *)

Definition first_char (s : string) : option ascii :=
  match s with
  | EmptyString => None
  | String c _ => Some c
  end.

(** A text that neither starts nor ends with white space. *)
Definition trimmed (s : string) : Prop :=
  (forall c, first_char s = Some c -> is_space c = false) /\
  (forall c, last_char s = Some c -> is_space c = false).

Section StripLaws.
Context (sp : ascii -> bool).

Lemma lstrip_with_first (s : string) (c : ascii) :
  first_char (lstrip_with sp s) = Some c -> sp c = false.
Proof.
  induction s as [| a s IH]; simpl; [done|].
  destruct (sp a) eqn:Ha; [done|]. simpl. by intros [= <-].
Qed.

Lemma rstrip_with_first (s : string) :
  rstrip_with sp s = EmptyString \/ first_char (rstrip_with sp s) = first_char s.
Proof.
  destruct s as [| a s]; [by left|]. simpl.
  destruct (rstrip_with sp s); [|by right].
  destruct (sp a); [by left | by right].
Qed.

Lemma rstrip_with_last (s : string) (c : ascii) :
  last_char (rstrip_with sp s) = Some c -> sp c = false.
Proof.
  induction s as [| a s IH]; simpl; [done|].
  destruct (rstrip_with sp s) as [| b t] eqn:Hr.
  - destruct (sp a) eqn:Ha; simpl; [done|]. by intros [= <-].
  - intros H. apply IH. exact H.
Qed.

Lemma lstrip_with_id (s : string) :
  (forall c, first_char s = Some c -> sp c = false) -> lstrip_with sp s = s.
Proof.
  destruct s as [| a s]; [done|]. simpl. intros H. by rewrite (H a).
Qed.

Lemma rstrip_with_idem (s : string) :
  rstrip_with sp (rstrip_with sp s) = rstrip_with sp s.
Proof.
  induction s as [| a s IH]; simpl; [done|].
  destruct (rstrip_with sp s) as [| b t] eqn:Hr.
  - destruct (sp a) eqn:Ha; simpl; [done|]. by rewrite Ha.
  - change (rstrip_with sp (String a (String b t)))
      with (match rstrip_with sp (String b t) with
            | EmptyString => if sp a then EmptyString else String a EmptyString
            | t' => String a t'
            end).
    by rewrite IH.
Qed.

Lemma strip_with_laws (s : string) :
  (forall c, first_char (strip_with sp s) = Some c -> sp c = false) /\
  (forall c, last_char (strip_with sp s) = Some c -> sp c = false) /\
  strip_with sp (strip_with sp s) = strip_with sp s.
Proof.
  unfold strip_with.
  assert (forall c, first_char (rstrip_with sp (lstrip_with sp s)) = Some c -> sp c = false)
    as Hfirst.
  { intros c Hc. destruct (rstrip_with_first (lstrip_with sp s)) as [He | He].
    - by rewrite He in Hc.
    - rewrite He in Hc. by apply lstrip_with_first in Hc. }
  split; [exact Hfirst|]. split; [apply rstrip_with_last|].
  rewrite (lstrip_with_id _ Hfirst). apply rstrip_with_idem.
Qed.
End StripLaws.

Lemma strip_trimmed (s : string) : trimmed (strip s).
Proof. unfold trimmed, strip. destruct (strip_with_laws is_space s) as (? & ? & _). auto. Qed.

Lemma trimmed_sentinel : trimmed "N/A".
Proof. split; intros c [= <-]; reflexivity. Qed.

(** Property X6. The narrative that [generate_approval_conditions] returns never
    starts or ends with white space, whatever the service answers, and
    the call leaves exactly one more event, the request built from the
    source text. *)
Theorem generated_narrative_is_trimmed
    (invoke_model : list event -> bedrock_request -> result response_body)
    (cam_text : value) (w : world) (narrative : string) :
  (generate_approval_conditions invoke_model cam_text w).1 = Ok narrative ->
  trimmed narrative /\
  (generate_approval_conditions invoke_model cam_text w).2
    = {| trace := trace w ++ [InvokeModel (approval_request cam_text)]; drawn := drawn w |}.
Proof.
  unfold generate_approval_conditions.
  destruct (invoke_model (trace w) (approval_request cam_text))
    as [[[[| [t |] items] |]] | e]; simpl; try discriminate.
  - intros [= <-]. split; [apply strip_trimmed | reflexivity].
  - intros [= <-]. split; [apply trimmed_sentinel | reflexivity].
Qed.

Lemma generated_narrative_is_trimmed_sample :
  trimmed "1. Proof of insurance.".
Proof.
  apply (generated_narrative_is_trimmed
           (fun _ _ => Ok {| content := Some [Some "  1. Proof of insurance.  "] |})
           (VStr "memo") start "1. Proof of insurance.").
  vm_compute. reflexivity.
Defined.

(** A label and its value, both trimmed. *)
Definition entry_trimmed (kv : string * string) : Prop := trimmed kv.1 /\ trimmed kv.2.

Lemma od_set_Forall {V} (P : string * V -> Prop) (k : string) (v : V) (d : odict V) :
  P (k, v) -> Forall P d -> Forall P (od_set k v d).
Proof.
  intros Hkv Hd. induction Hd as [| [k' v'] d Hk' Hd IH]; simpl.
  - by constructor.
  - destruct (String.eqb k' k); constructor; done.
Qed.

Lemma extract_step_trimmed (response : analysis) (blocks : gmap string block)
    (fields fields' : odict string) (b : block) :
  extract_step response blocks fields b = Ok fields' ->
  Forall entry_trimmed fields -> Forall entry_trimmed fields'.
Proof.
  unfold extract_step. intros H Hall.
  apply bind_ok in H as (is_key & _ & H).
  destruct is_key; [|by injection H as <-].
  apply bind_ok in H as (vid & _ & H). injection H as <-.
  apply od_set_Forall; [|done]. split; apply strip_trimmed.
Qed.

(** Property X7. Every label and every value of the mapping that the extraction
    returns is trimmed, on any response, well shaped or not. *)
Theorem extracted_fields_are_trimmed (response : analysis) (fields : odict string) :
  textract_fields response = Ok fields -> Forall entry_trimmed fields.
Proof.
  unfold textract_fields.
  generalize (blocks_by_id response) as blocks.
  assert (Forall entry_trimmed ([] : odict string)) as Hstart by constructor.
  revert Hstart. generalize ([] : odict string) as acc.
  induction (Blocks response) as [| b bs IH]; intros acc Hacc blocks Hloop.
  - by injection Hloop as <-.
  - cbn [extract_loop] in Hloop. apply bind_ok in Hloop as (acc' & Hstep & Hloop).
    eapply IH; [|exact Hloop]. by eapply extract_step_trimmed.
Qed.

Lemma extracted_fields_are_trimmed_sample :
  Forall entry_trimmed [("Loan Amount:", ""); ("", "")].
Proof.
  apply (extracted_fields_are_trimmed memo_response). vm_compute. reflexivity.
Defined.

(** ** What can leave the narrative step *)

(** Property X8. In the older revision the narrative step cannot raise: whatever
    the services do and whatever the row holds, it yields a text, and
    that text is the sentinel unless the extraction and the generation
    both returned. *)
Theorem legacy_narrative_never_raises
    (analyze_document : list event -> string -> value -> result analysis)
    (invoke_model : list event -> bedrock_request -> result response_body)
    (row : gmap string value) (w : world) :
  exists text,
    (Legacy.approval_conditions analyze_document invoke_model row w).1 = Ok text /\
    (text = fallback \/
     exists app fields w1,
       row !! "application_id" = Some app /\
       (extract_from_textract analyze_document bucket_name
          (VStr ("cams/" +:+ py_str app +:+ ".pdf")) w) = (Ok fields, w1) /\
       (generate_approval_conditions invoke_model (VStr (serialize_fields fields)) w1).1
         = Ok text).
Proof.
  unfold Legacy.approval_conditions, try_except, mbind, M_bind, lift, getitem.
  destruct (row !! "application_id") as [app |]; [|exists fallback; auto].
  destruct (extract_from_textract _ _ _ w) as [[fields | e] w1] eqn:Hext;
    [|exists fallback; auto].
  destruct (generate_approval_conditions _ _ w1) as [[text | e] w2] eqn:Hgen;
    [|exists fallback; auto].
  exists text. split; [done|]. right. exists app, fields, w1. by rewrite Hgen.
Qed.

(** Property X9. In the newer revision an exception leaves the narrative step
    only from the generation: the source text was obtained and is not
    empty, and the generation call itself raised it. A failing
    extraction never does. *)
Theorem narrative_raises_only_from_generation
    (analyze_document : list event -> string -> value -> result analysis)
    (invoke_model : list event -> bedrock_request -> result response_body)
    (row : gmap string value) (w : world) (e : exn) :
  (approval_conditions analyze_document invoke_model row w).1 = Raise e ->
  exists cam_text w1,
    select_cam_text analyze_document row w = (Ok cam_text, w1) /\
    truthy cam_text = true /\
    (generate_approval_conditions invoke_model cam_text w1).1 = Raise e.
Proof.
  rewrite approval_conditions_cases.
  pose proof (select_cam_text_cases analyze_document row w) as Hsel. cbv zeta in Hsel.
  destruct (select_cam_text analyze_document row w) as [[cam_text | e'] w1].
  - destruct (truthy cam_text) eqn:Ht; [|discriminate]. eauto.
  - exfalso.
    destruct (notnull (get row "cam_content" VNone)); [discriminate|].
    destruct (notnull (get row "cam_s3_key" VNone)); [|discriminate].
    destruct (_ ≫= textract_fields); discriminate.
Qed.

Lemma narrative_raises_only_from_generation_sample :
  exists cam_text w1,
    select_cam_text analysis_unreached
      (list_to_map [("cam_content", VStr "Approved subject to appraisal.")]) start
      = (Ok cam_text, w1) /\
    truthy cam_text = true /\
    (generate_approval_conditions throttled cam_text w1).1
      = Raise (ClientError "ThrottlingException").
Proof.
  apply (narrative_raises_only_from_generation analysis_unreached throttled).
  vm_compute. reflexivity.
Defined.

(** ** The agreements of a completed loop *)

(** What an output row takes from the input row it was made for. *)
Definition agreement_of_row (today : string) (row : gmap string value) (a : agreement) : Prop :=
  row !! "application_id" = Some (application_id a) /\
  row !! "client_id" = Some (client_id a) /\
  out_template_id a = template_of row /\
  cam_id a = get row "cam_id" (VStr "N/A") /\
  client_name a = get row "full_name" (VStr "N/A") /\
  loan_type a = get row "loan_type" (VStr "N/A") /\
  generation_date a = today /\
  status a = "Generated" /\ review_required a = "Yes" /\ compliance_check a = "Pending".

Section Agreements.
Context (analyze_document : list event -> string -> value -> result analysis).
Context (invoke_model : list event -> bedrock_request -> result response_body).
Context (render : string -> gmap string value -> result string).
Context (uuid4 : nat -> string).
Context (today : string).

Abbreviation approval_conditions := (approval_conditions analyze_document invoke_model).
Abbreviation process_row := (process_row analyze_document invoke_model render uuid4 today).
Abbreviation main_loop := (main_loop analyze_document invoke_model render uuid4 today).

(** The narrative step draws no identifier and appends at most two
    service calls to the trace. *)
Lemma approval_conditions_world (row : gmap string value) (w : world) :
  drawn (approval_conditions row w).2 = drawn w /\
  exists calls, trace (approval_conditions row w).2 = trace w ++ calls /\
                (length calls <= 2)%nat.
Proof.
  rewrite approval_conditions_cases, select_cam_text_cases. cbv zeta.
  destruct (notnull (get row "cam_content" VNone)).
  { destruct (truthy _).
    - rewrite generation_trace. split; [done|]. eexists [_]. split; [done | simpl; lia].
    - split; [done|]. exists []. by rewrite app_nil_r; simpl; split; [|lia]. }
  destruct (notnull (get row "cam_s3_key" VNone)).
  - destruct (_ ≫= textract_fields) as [fields | e].
    + destruct (truthy _).
      * rewrite generation_trace. split; [done|]. eexists [_; _]. simpl.
        rewrite <- app_assoc. split; [done | lia].
      * split; [done|]. eexists [_]. split; [done | simpl; lia].
    + simpl. split; [done|]. eexists [_]. split; [done | simpl; lia].
  - simpl. split; [done|]. exists []. rewrite app_nil_r. split; [done | simpl; lia].
Qed.

Lemma process_row_agreement (template_map : gmap string template_info)
    (row : gmap string value) (w w' : world) (info : template_info)
    (r : option agreement) :
  get_by_value template_map (template_of row) = Some info ->
  process_row template_map row w = (Ok r, w') ->
  exists a, r = Some a /\ agreement_of_row today row a /\
            agreement_id a = uuid4 (drawn w) /\
            drawn w' = S (drawn w) /\
            exists calls, trace w' = trace w ++ calls /\ (length calls <= 2)%nat.
Proof.
  intros Hinfo. unfold Lambda.process_row, mbind, M_bind, lift, fresh_uuid, mret, M_ret.
  rewrite resolve_template_id_total, Hinfo.
  destruct (build_context today (template_of row) row) as [ctx |]; [|discriminate].
  pose proof (approval_conditions_world row w) as [Hdrawn Htrace].
  destruct (approval_conditions row w) as [[conditions |] w1]; [|discriminate].
  simpl in Hdrawn, Htrace.
  destruct (render _ _) as [text |]; [|discriminate].
  unfold getitem.
  destruct (row !! "application_id") as [app |] eqn:Happ; [|discriminate].
  destruct (row !! "client_id") as [cli |] eqn:Hcli; [|discriminate].
  intros [= <- <-]. eexists. split; [reflexivity|]. simpl.
  rewrite Hdrawn. unfold agreement_of_row. simpl.
  split; [by repeat split|]. by repeat split.
Qed.

Lemma main_loop_agreements (template_map : gmap string template_info)
    (rows : list (gmap string value)) (out out' : list agreement) (w w' : world) :
  main_loop template_map rows out w = (Ok out', w') ->
  exists new,
    out' = out ++ new /\
    Forall2 (agreement_of_row today) (List.filter (in_catalog template_map) rows) new /\
    map agreement_id new = map uuid4 (seq (drawn w) (length new)) /\
    drawn w' = (drawn w + length new)%nat /\
    exists calls, trace w' = trace w ++ calls /\ (length calls <= 2 * length new)%nat.
Proof.
  revert out w. induction rows as [| row rows IH]; intros out w.
  - intros [= <- <-]. exists []. rewrite !app_nil_r. simpl.
    repeat split; [constructor | lia |]. exists []. by rewrite app_nil_r.
  - cbn [Lambda.main_loop List.filter]. unfold mbind, M_bind.
    destruct (process_row template_map row w) as [[r |] w1] eqn:Hrow; [|discriminate].
    intros Hrest.
    apply IH in Hrest as (new & -> & Hrows & Hids & Hdrawn & calls & Htrace & Hcalls).
    unfold in_catalog at 1.
    destruct (get_by_value template_map (template_of row)) as [info |] eqn:Hinfo.
    + destruct (process_row_agreement _ _ _ _ _ _ Hinfo Hrow)
        as (a & -> & Ha & Hid & Hd1 & calls1 & Ht1 & Hc1).
      rewrite bool_decide_eq_true_2 by eauto.
      exists (a :: new). rewrite <- app_assoc. simpl.
      split; [done|]. split; [by constructor|].
      split; [by rewrite Hid, Hids, Hd1|].
      split; [lia|].
      exists (calls1 ++ calls). rewrite Htrace, Ht1, <- app_assoc, length_app.
      split; [done | lia].
    + rewrite (process_row_skips _ _ _ _ _ _ _ _ Hinfo) in Hrow. injection Hrow as <- <-.
      rewrite bool_decide_eq_false_2 by (intros [? ?]; done).
      exists new. eauto 10.
Qed.

(** Property X10. The rows a completed loop appends are, in order, one for each
    input row whose template is in the template catalog: each carries
    the row's application and client cells, the resolved template id,
    the row's memo id, client name and loan type (or ["N/A"] without the
    column), today's date and the fixed status fields. Their identifiers
    are the consecutive draws of the generator, so an injective
    generator gives no two rows the same identifier. *)
Theorem completed_loop_agreements (template_map : gmap string template_info)
    (rows : list (gmap string value)) (out out' : list agreement) (w : world) :
  (main_loop template_map rows out w).1 = Ok out' ->
  exists new,
    out' = out ++ new /\
    Forall2 (agreement_of_row today) (List.filter (in_catalog template_map) rows) new /\
    map agreement_id new = map uuid4 (seq (drawn w) (length new)) /\
    drawn (main_loop template_map rows out w).2 = (drawn w + length new)%nat /\
    (Inj eq eq uuid4 -> NoDup (map agreement_id new)).
Proof.
  destruct (main_loop template_map rows out w) as [r w'] eqn:Hloop. simpl. intros ->.
  destruct (main_loop_agreements _ _ _ _ _ _ Hloop) as (new & -> & Hrows & Hids & Hdrawn & _).
  exists new. repeat split; try done.
  intros Hinj. rewrite Hids. apply NoDup_fmap_2; [done | apply NoDup_seq].
Qed.

(** Property X11. A completed loop only appends to the trace of service calls,
    and at most two calls (one extraction, one generation) for each row
    it emitted: a skipped row costs no call. *)
Theorem completed_loop_service_calls (template_map : gmap string template_info)
    (rows : list (gmap string value)) (out out' : list agreement) (w : world) :
  (main_loop template_map rows out w).1 = Ok out' ->
  exists calls,
    trace (main_loop template_map rows out w).2 = trace w ++ calls /\
    (length calls <= 2 * (length out' - length out))%nat.
Proof.
  destruct (main_loop template_map rows out w) as [r w'] eqn:Hloop. simpl. intros ->.
  destruct (main_loop_agreements _ _ _ _ _ _ Hloop)
    as (new & -> & _ & _ & _ & calls & Htrace & Hcalls).
  exists calls. split; [done|]. rewrite length_app. lia.
Qed.
End Agreements.

Definition memo_rows : list (gmap string value) :=
  [ list_to_map [ ("application_id", VStr "APP-001"); ("client_id", VStr "CL-001");
                  ("template_id", VStr "TEMPLATE-002");
                  ("cam_content", VStr "Approved subject to appraisal.") ];
    list_to_map [ ("application_id", VStr "APP-002"); ("client_id", VStr "CL-002");
                  ("template_id", VStr "TEMPLATE-999") ];
    list_to_map [ ("application_id", VStr "APP-003"); ("client_id", VStr "CL-003");
                  ("template_id", nan); ("loan_type", VStr "Mortgage") ] ].

Definition memo_agreements : list agreement :=
  [ {| agreement_id := "agreement-0"; cam_id := VStr "N/A";
       application_id := VStr "APP-001"; client_id := VStr "CL-001";
       client_name := VStr "N/A"; out_template_id := VStr "TEMPLATE-002";
       out_template_name := "Personal Loan Agreement"; loan_type := VStr "N/A";
       loan_amount := VStr "N/A";
       populated_agreement_content := "borrower_name,loan_amount,lender_name,approval_conditions";
       generation_date := "2025-06-01"; status := "Generated";
       review_required := "Yes"; compliance_check := "Pending" |} ].

Lemma completed_loop_agreements_sample :
  exists new,
    memo_agreements = [] ++ new /\
    Forall2 (agreement_of_row "2025-06-01")
      (List.filter (in_catalog (load_templates [personal_loan])) memo_rows) new /\
    map agreement_id new = map uuid_by_rank (seq 0 (length new)) /\
    drawn (main_loop analysis_unreached conditions_generated render_fields uuid_by_rank
             "2025-06-01" (load_templates [personal_loan]) memo_rows [] start).2
      = (0 + length new)%nat /\
    (Inj eq eq uuid_by_rank -> NoDup (map agreement_id new)).
Proof.
  apply (completed_loop_agreements analysis_unreached conditions_generated render_fields
           uuid_by_rank "2025-06-01" (load_templates [personal_loan]) memo_rows []
           memo_agreements start).
  vm_compute. reflexivity.
Defined.

Lemma completed_loop_service_calls_sample :
  exists calls,
    trace (main_loop analysis_unreached conditions_generated render_fields uuid_by_rank
             "2025-06-01" (load_templates [personal_loan]) memo_rows [] start).2
      = trace start ++ calls /\
    (length calls <= 2 * (length memo_agreements - length (@nil agreement)))%nat.
Proof.
  apply (completed_loop_service_calls analysis_unreached conditions_generated render_fields
           uuid_by_rank "2025-06-01" (load_templates [personal_loan]) memo_rows []
           memo_agreements start).
  vm_compute. reflexivity.
Defined.

(** ** The two revisions of the formatting helpers *)

(** Property X12. The formatting helpers of the newer revision extend those of
    the older one: whatever the older helper returns the newer returns
    too, and the older one raises exactly on text, with [ValueError],
    where the newer one returns. *)
Theorem formatters_extend_older_revision (v : value) :
  (forall s, Legacy.format_currency v = Ok s -> format_currency v = Ok s) /\
  (forall s, Legacy.format_percentage v = Ok s -> format_percentage v = Ok s) /\
  ((exists t, v = VStr t) <-> Legacy.format_currency v = Raise ValueError) /\
  ((exists t, v = VStr t) <-> Legacy.format_percentage v = Raise ValueError) /\
  (forall e, Legacy.format_currency v = Raise e \/ Legacy.format_percentage v = Raise e ->
     e = ValueError).
Proof.
  unfold Legacy.format_currency, Legacy.format_percentage, Legacy.format_number,
    format_currency, format_percentage.
  destruct v as [| b | z | x | t]; simpl.
  - repeat split; try done; try (intros [t ?]; done). by intros ? [? | ?].
  - repeat split; try done; try (intros [t ?]; done). by intros ? [? | ?].
  - repeat split; try done; try (intros [t ?]; done). by intros ? [? | ?].
  - destruct x; simpl; repeat split; try done; try (intros [t ?]; done);
      by intros ? [? | ?].
  - repeat split; try done; try (by intros _; eexists).
    intros e [[= <-] | [= <-]]; done.
Qed.

(** ** The formatted fields of a context *)

(** Property X13. Once the context of a row is built, each of its currency and
    percentage fields is text, whatever the cell it was resolved from:
    no number, null or [None] is left in a formatted field. *)
Theorem formatted_fields_are_text (today : string) (tid : value)
    (row : gmap string value) (f : string) (v : value) :
  f ∈ currency_fields ++ percentage_fields ->
  (ctx ← build_context today tid row; Ok (ctx !! f)) = Ok (Some v) ->
  exists s, v = VStr s.
Proof.
  intros Hf H. apply bind_ok in H as (ctx & H & [= Hv]).
  unfold build_context in H.
  apply bind_ok in H as (ctx3 & H & [= <-]).
  assert (f ∉ default_keys) as Hnd.
  { revert Hf. generalize f. apply Forall_forall. decide_by_compute. }
  unfold update in Hv. rewrite lookup_union_r in Hv
    by (apply defaults_keys; exact Hnd).
  unfold resolved_fields in H.
  apply bind_ok in H as (ctx1 & _ & H). apply bind_ok in H as (ctx2 & H2 & H3).
  apply elem_of_app in Hf as [Hc | Hp].
  - rewrite (apply_format_other _ _ _ _ _ H3) in Hv.
    2:{ revert Hc. generalize f. apply Forall_forall. decide_by_compute. }
    assert (is_Some (ctx1 !! f)) as [u Hu].
    { apply elem_of_dom. rewrite <- (apply_format_dom _ _ _ _ H2).
      apply elem_of_dom. eauto. }
    destruct (apply_format_field _ _ _ _ _ _ H2 NoDup_currency_fields Hc Hu)
      as (s & _ & Hs).
    rewrite Hs in Hv. injection Hv as <-. eauto.
  - assert (is_Some (ctx2 !! f)) as [u Hu].
    { apply elem_of_dom. rewrite <- (apply_format_dom _ _ _ _ H3).
      apply elem_of_dom. eauto. }
    destruct (apply_format_field _ _ _ _ _ _ H3 NoDup_percentage_fields Hp Hu)
      as (s & _ & Hs).
    rewrite Hs in Hv. injection Hv as <-. eauto.
Qed.

Lemma formatted_fields_are_text_sample :
  exists s, VStr "$400,000.00" = VStr s.
Proof.
  apply (formatted_fields_are_text "2025-06-01" (VStr "TEMPLATE-001") sample_row
           "loan_amount").
  - decide_by_compute.
  - vm_compute. reflexivity.
Defined.

(** ** What can leave the field resolution *)

(** The columns the computed rules of TEMPLATE-001 index without a
    default. *)
Definition indexed_columns : list string :=
  ["address_line1"; "city"; "state"; "zip_code"; "property_value"; "requested_amount"].

Lemma borrower_address_raises (row : gmap string value) (e : exn) :
  borrower_address row = Raise e ->
  exists c, e = KeyError c /\ c ∈ indexed_columns /\ row !! c = None.
Proof.
  unfold borrower_address, getitem.
  destruct (row !! "address_line1") eqn:H1; simpl;
    [|intros [= <-]; eexists; split; [done|]; split; [|done]; decide_by_compute].
  destruct (row !! "city") eqn:H2; simpl;
    [|intros [= <-]; eexists; split; [done|]; split; [|done]; decide_by_compute].
  destruct (row !! "state") eqn:H3; simpl;
    [|intros [= <-]; eexists; split; [done|]; split; [|done]; decide_by_compute].
  destruct (row !! "zip_code") eqn:H4; simpl;
    [|intros [= <-]; eexists; split; [done|]; split; [|done]; decide_by_compute].
  discriminate.
Qed.

Lemma down_payment_raises (row : gmap string value) (e : exn) :
  down_payment row = Raise e ->
  (exists c, e = KeyError c /\ c ∈ indexed_columns /\ row !! c = None) \/
  (e = ValueError /\
   exists c s, c ∈ ["property_value"; "requested_amount"] /\ row !! c = Some (VStr s)).
Proof.
  unfold down_payment, getitem.
  destruct (row !! "property_value") as [pv |] eqn:Hpv; simpl;
    [|intros [= <-]; left; eexists; split; [done|]; split; [|done]; decide_by_compute].
  destruct (notnull pv) eqn:Hnpv; simpl; [|discriminate].
  destruct (row !! "requested_amount") as [ra |] eqn:Hra; simpl;
    [|intros [= <-]; left; eexists; split; [done|]; split; [|done]; decide_by_compute].
  destruct (notnull ra) eqn:Hnra; simpl; [|discriminate].
  destruct (py_float pv) as [x |] eqn:Hx; simpl.
  - destruct (py_float ra) as [y |] eqn:Hy; simpl; [discriminate|].
    intros [= <-]. destruct (py_float_notnull_raises _ _ Hnra Hy) as [-> [s ->]].
    right. split; [done|]. exists "requested_amount", s. split; [decide_by_compute | done].
  - intros [= <-]. destruct (py_float_notnull_raises _ _ Hnpv Hx) as [-> [s ->]].
    right. split; [done|]. exists "property_value", s. split; [decide_by_compute | done].
Qed.

Lemma column_rules_resolve (row : gmap string value) (mapping : list (string * source)) :
  Forall (fun fs => exists c, fs.2 = Column c) mapping ->
  Forall (fun fs => is_ok (eval_source fs.2 row) = true) mapping.
Proof. intros H. eapply Forall_impl; [exact H|]. intros [f src] [c Hc]. simpl in *. by subst. Qed.

Lemma build_context_raise_resolve (today : string) (tid : value)
    (row : gmap string value) (e : exn) :
  build_context today tid row = Raise e ->
  resolve (default [] (get_by_value template_mappings tid)) row = Raise e.
Proof.
  unfold build_context, resolved_fields.
  destruct (resolve _ row) as [ctx1 | e1]; [|by intros [= <-]].
  cbn [mbind result_bind].
  destruct (apply_format_ok format_currency currency_fields ctx1 format_currency_ok)
    as [ctx2 ->].
  cbn [mbind result_bind].
  destruct (apply_format_ok format_percentage percentage_fields ctx2 format_percentage_ok)
    as [ctx3 ->].
  discriminate.
Qed.

(** Property X14. The field resolution of a row raises only for TEMPLATE-001,
    and then only from one of its two computed rules: a [KeyError] for
    one of the six columns they index when the row has no such column,
    or a [ValueError] when [property_value] or [requested_amount] holds
    text. The column rules, the formatting and the defaults never
    raise; so for every other template id, known or not, the context is
    built. *)
Theorem build_context_raises (today : string) (tid : value)
    (row : gmap string value) (e : exn) :
  build_context today tid row = Raise e ->
  tid = VStr "TEMPLATE-001" /\
  ((exists c, e = KeyError c /\ c ∈ indexed_columns /\ row !! c = None) \/
   (e = ValueError /\
    exists c s, c ∈ ["property_value"; "requested_amount"] /\ row !! c = Some (VStr s))).
Proof.
  intros H. apply build_context_raise_resolve in H.
  assert (forall mapping,
            Forall (fun fs => exists c, fs.2 = Column c) mapping ->
            default [] (get_by_value template_mappings tid) = mapping -> False) as Hcols.
  { intros mapping Hall Hm. rewrite Hm in H.
    destruct (resolve_from_ok row mapping ∅ (column_rules_resolve row mapping Hall))
      as [ctx1 H1].
    unfold resolve in H. by rewrite H1 in H. }
  destruct (get_by_value template_mappings tid) as [m |] eqn:Hm.
  2:{ exfalso. by apply (Hcols []). }
  destruct tid as [| | | | s]; try discriminate. simpl in Hm.
  destruct (template_mappings_cases s m Hm) as [-> | [-> | ->]].
  - assert (s = "TEMPLATE-001") as ->.
    { unfold template_mappings in Hm.
      apply lookup_insert_Some in Hm as [[_ Hm] | [_ Hm]]; [discriminate Hm|].
      apply lookup_insert_Some in Hm as [[_ Hm] | [_ Hm]]; [discriminate Hm|].
      apply lookup_insert_Some in Hm as [[<- _] | [_ Hm]]; [done|].
      by rewrite lookup_empty in Hm. }
    split; [done|].
    unfold resolve, default in H. cbn [from_option id] in H.
    unfold TEMPLATE_001 in H. cbn [resolve_from eval_source] in H.
    cbn [mbind result_bind] in H.
    destruct (borrower_address row) as [addr | ea] eqn:Ha.
    + cbn [mbind result_bind] in H.
      destruct (down_payment row) as [dp | ed] eqn:Hd;
        cbn [mbind result_bind resolve_from] in H; [discriminate H|].
      injection H as <-. by apply down_payment_raises.
    + injection H as <-. left. by apply borrower_address_raises.
  - exfalso. apply (Hcols TEMPLATE_002); [|done].
    unfold TEMPLATE_002. repeat (apply Forall_cons; split; [simpl; eauto|]). apply Forall_nil_2.
  - exfalso. apply (Hcols TEMPLATE_003); [|done].
    unfold TEMPLATE_003. repeat (apply Forall_cons; split; [simpl; eauto|]). apply Forall_nil_2.
Qed.

Definition text_value_row : gmap string value :=
  list_to_map
    [ ("application_id", VStr "APP-001"); ("client_id", VStr "CL-001");
      ("address_line1", VStr "12 Main St"); ("city", VStr "Albany");
      ("state", VStr "NY"); ("zip_code", VInt 12207);
      ("property_value", VStr "five hundred thousand"); ("requested_amount", VInt 400000) ].

Lemma build_context_raises_sample :
  VStr "TEMPLATE-001" = VStr "TEMPLATE-001" /\
  ((exists c, ValueError = KeyError c /\ c ∈ indexed_columns /\ text_value_row !! c = None) \/
   (ValueError = ValueError /\
    exists c s, c ∈ ["property_value"; "requested_amount"] /\
                text_value_row !! c = Some (VStr s))).
Proof.
  apply (build_context_raises "2025-06-01" (VStr "TEMPLATE-001") text_value_row ValueError).
  vm_compute. reflexivity.
Defined.

(** ** The template catalog *)

(** The catalog entry made from one template of the file. *)
Definition info_of (t : template_json) : template_info :=
  {| template := template_content t; name := default "" (template_name t) |}.

(** Property X15. The catalog has an entry for an id exactly when the template
    file has a template of that id, and the entry is made from the last
    such template: an earlier template of the same id is overridden,
    and a template without a name gets the empty name. *)
Theorem load_templates_last_wins (templates : list template_json) (k : string) :
  load_templates templates !! k
    = info_of <$> last (List.filter (fun t => bool_decide (template_id t = k)) templates).
Proof.
  unfold load_templates.
  induction templates as [| t ts IH] using rev_ind; [done|].
  rewrite fold_left_app, List.filter_app, last_app. simpl.
  destruct (decide (template_id t = k)) as [<- | Hne].
  - rewrite bool_decide_eq_true_2 by done. simpl. by rewrite lookup_insert_eq.
  - rewrite bool_decide_eq_false_2 by done. simpl. by rewrite lookup_insert_ne.
Qed.

(** ** The narrative of a scanned memo *)

Lemma serialize_fields_empty (fields : odict string) :
  serialize_fields fields = "" <-> fields = [].
Proof.
  unfold serialize_fields. split; [|by intros ->].
  destruct fields as [| [k v] [| kv rest]]; [done | |]; simpl.
  - destruct k; discriminate.
  - destruct k; discriminate.
Qed.

(** Property X16. For a row without memo text whose scanned memo is analysed
    successfully, the fields found decide the narrative: with no field
    the sentinel is used and the extraction is the only call; with at
    least one field the narrative is whatever the generation gives for
    the serialized fields, a failure of it included. *)
Theorem extracted_fields_decide_generation
    (analyze_document : list event -> string -> value -> result analysis)
    (invoke_model : list event -> bedrock_request -> result response_body)
    (row : gmap string value) (w : world) (fields : odict string) :
  notnull (get row "cam_content" VNone) = false ->
  notnull (get row "cam_s3_key" VNone) = true ->
  analyze_document (trace w) bucket_name (get row "cam_s3_key" VNone) ≫= textract_fields
    = Ok fields ->
  approval_conditions analyze_document invoke_model row w =
    let extracted := after w (AnalyzeDocument bucket_name (get row "cam_s3_key" VNone)) in
    match fields with
    | [] => (Ok fallback, extracted)
    | _ :: _ =>
        generate_approval_conditions invoke_model (VStr (serialize_fields fields)) extracted
    end.
Proof.
  intros Htext Hkey Hfields.
  rewrite approval_conditions_cases, select_cam_text_cases. cbv zeta.
  rewrite Htext, Hkey, Hfields.
  destruct fields as [| kv rest]; [done|].
  assert (truthy (VStr (serialize_fields (kv :: rest))) = true) as ->; [|done].
  simpl. apply negb_true_iff, String.eqb_neq.
  intros Hempty. by apply serialize_fields_empty in Hempty.
Qed.

Lemma extracted_fields_decide_generation_sample :
  approval_conditions no_fields_found conditions_generated scan_only_row start =
    let extracted :=
      after start (AnalyzeDocument bucket_name (get scan_only_row "cam_s3_key" VNone)) in
    match @nil (string * string) with
    | [] => (Ok fallback, extracted)
    | _ :: _ =>
        generate_approval_conditions conditions_generated
          (VStr (serialize_fields [])) extracted
    end.
Proof.
  apply (extracted_fields_decide_generation no_fields_found conditions_generated
           scan_only_row start []); vm_compute; reflexivity.
Defined.
